(** * arena-chan-dl: the channel download pipeline of [index.js]

    A shallow embedding of [createChannelClient], [downloadBlock] and
    [downloadChannel], and the properties of the pipeline.

    Conventions of the embedding.
    - Every call that leaves the process (an [axios.get], [fs.mkdir],
      [fs.writeFile]) and every console line is an [event]; a run of an
      async function is the list of events it issues together with its
      outcome (a value, or a thrown error carrying its message).
    - The remote API and the file system are a [World]: an oracle that
      gives the outcome of each call.  The packages [slugify],
      [mime-types] and [path] are a [Lib].
    - A JavaScript number that comes from the command line
      ([chunkSize]) is a [number]: NaN, an infinity, or a finite value
      kept as a rational.  Comparisons are exact; sums are exact on the
      integer values for which the loop properties are stated.
    - Promises started together ([Promise.all], [Promise.allSettled])
      are run one after the other in array order: the events of a run
      are those of one schedule, and no oracle depends on the schedule. *)

From Stdlib Require Import String Ascii.
From Stdlib Require Import List Bool Arith ZArith QArith Qround Lia.
From Stdlib Require Import DecimalString DecimalPos DecimalZ.
From ExtLib Require Import Structures.Monad Structures.MonadExc.
Import ListNotations.
Import MonadNotation.

Local Close Scope Q_scope.
Local Open Scope string_scope.
Local Open Scope list_scope.
Local Open Scope nat_scope.

Set Implicit Arguments.

(** ** JavaScript numbers *)

Inductive number : Type :=
| NaN
| PosInf
| NegInf
| Fin (q : Q).

Definition Qltb (a b : Q) : bool :=
  (Qnum a * Zpos (Qden b) <? Qnum b * Zpos (Qden a))%Z.

(** [a < b] of JavaScript: false as soon as one side is NaN. *)
Definition num_ltb (a b : number) : bool :=
  match a, b with
  | NaN, _ | _, NaN => false
  | PosInf, _ => false
  | _, NegInf => false
  | NegInf, _ => true
  | Fin _, PosInf => true
  | Fin x, Fin y => Qltb x y
  end.

(** [a + b] of JavaScript. *)
Definition num_add (a b : number) : number :=
  match a, b with
  | NaN, _ | _, NaN => NaN
  | PosInf, NegInf | NegInf, PosInf => NaN
  | PosInf, _ | _, PosInf => PosInf
  | NegInf, _ | _, NegInf => NegInf
  | Fin x, Fin y => Fin (Qplus x y)
  end.

Definition num_of_Z (z : Z) : number := Fin (inject_Z z).
Definition num_of_nat (n : nat) : number := num_of_Z (Z.of_nat n).

(** The result of the abstract operation ToIntegerOrInfinity. *)
Inductive extint : Type :=
| EInt (z : Z)
| EPosInf
| ENegInf.

(** Truncation toward zero. *)
Definition Qtrunc (q : Q) : Z :=
  if (Qnum q <? 0)%Z then Qceiling q else Qfloor q.

Definition to_integer_or_infinity (x : number) : extint :=
  match x with
  | NaN => EInt 0
  | PosInf => EPosInf
  | NegInf => ENegInf
  | Fin q => EInt (Qtrunc q)
  end.

(** The index clamping of [Array.prototype.slice]: a negative index
    counts from the end, and the result stays within [0, len]. *)
Definition clamp_index (len : Z) (r : extint) : Z :=
  match r with
  | ENegInf => 0
  | EInt z => if (z <? 0)%Z then Z.max (len + z) 0 else Z.min z len
  | EPosInf => len
  end.

(** [l.slice(s, e)]. *)
Definition slice {A : Type} (l : list A) (s e : number) : list A :=
  let len := Z.of_nat (length l) in
  let k := clamp_index len (to_integer_or_infinity s) in
  let final := clamp_index len (to_integer_or_infinity e) in
  firstn (Z.to_nat (final - k)) (skipn (Z.to_nat k) l).

(** [l.map((x, idx) => f(x, idx))]. *)
Fixpoint mapi_from {A B : Type} (f : A -> nat -> B) (idx : nat) (l : list A) : list B :=
  match l with
  | [] => []
  | x :: l' => f x idx :: mapi_from f (S idx) l'
  end.

Definition mapi {A B : Type} (f : A -> nat -> B) (l : list A) : list B :=
  mapi_from f 0 l.

(** ** Data model *)

Definition bytes : Type := list Byte.byte.

(** A block identifier is a number or a string. *)
Inductive ident : Type :=
| IdNum (n : Z)
| IdStr (s : string).

(** The string a template literal makes of an identifier. *)
Definition ident_to_string (i : ident) : string :=
  match i with
  | IdNum n => NilZero.string_of_int (Z.to_int n)
  | IdStr s => s
  end.

(** [block.image.original]. *)
Record Original : Type := { original_url : option string }.

(** [block.image]. *)
Record Image : Type := {
  image_original : option Original;
  image_content_type : option string
}.

Record Block : Type := {
  block_id : ident;
  block_title : option string;
  block_image : option Image
}.

(** The body of the [thumb] response. *)
Record Thumb : Type := {
  thumb_title : string;
  thumb_length : Z
}.

(** The body of a [contents] response. *)
Record Page : Type := { page_contents : list Block }.

(** The object [downloadBlock] resolves to. *)
Record DownloadResult : Type := {
  success : bool;
  filepath : option string;
  reason : option string
}.

(** The [options] argument of [downloadBlock]. *)
Record Options : Type := {
  opt_slug : string;
  opt_outputDir : string;
  opt_index : number
}.

(** ** Events and outcomes *)

Inductive console : Type :=
| LogFetchingPage (page : nat)
| ErrFailedPage (page : nat) (msg : string)
| LogDownload (index : number) (id : ident)
| LogSkipped
| LogImageUrl (url : string)
| LogSaved (filename : string)
| ErrFailed (msg : string)
| LogFetchingChannel (slug : string)
| LogChannelHas (title : string) (len : Z)
| LogEmpty
| LogDownloading (total : nat) (chunkSize : number)
| LogProgress (downloaded total failed : nat)
| LogDone (downloaded failed : nat)
| ErrFatal (msg : string).

Inductive event : Type :=
| Console (c : console)
| GetThumb (slug : string)
| GetPage (slug : string) (page per : nat)
| GetImage (url : string)
| Mkdir (dir : string)
| WriteFile (path : string) (data : bytes).

(** What an external call answers. *)
Inductive result (A : Type) : Type :=
| Ok (a : A)
| Err (msg : string).
Arguments Err {A} msg.

(** How a run ends.  [OutOfFuel] belongs to the embedding only: the
    [for] loop of [downloadChannel] is unrolled a bounded number of
    times, and [chunk_loop_returns] shows that the bound is never hit
    for a chunk size that passes the validation. *)
Inductive outcome (A : Type) : Type :=
| Ret (a : A)
| Throw (msg : string)
| OutOfFuel.
Arguments Throw {A} msg.
Arguments OutOfFuel {A}.

Definition M (A : Type) : Type := (list event * outcome A)%type.

Definition M_ret {A : Type} (a : A) : M A := ([], Ret a).

Definition M_bind {A B : Type} (c : M A) (k : A -> M B) : M B :=
  match c with
  | (t, Ret a) => let (t', r) := k a in (t ++ t', r)
  | (t, Throw msg) => (t, Throw msg)
  | (t, OutOfFuel) => (t, OutOfFuel)
  end.

(** [try { c } catch (error) { h(error.message) }]. *)
Definition M_catch {A : Type} (c : M A) (h : string -> M A) : M A :=
  match c with
  | (t, Throw msg) => let (t', r) := h msg in (t ++ t', r)
  | _ => c
  end.

#[export] Instance Monad_M : Monad M :=
  {| ret := @M_ret; bind := @M_bind |}.

#[export] Instance MonadExc_M : MonadExc string M :=
  {| raise := fun _ msg => ([], Throw msg); catch := @M_catch |}.

Definition emit (e : event) : M unit := ([e], Ret tt).
Definition log (c : console) : M unit := emit (Console c).

(** Issue a call and wait for its answer. *)
Definition await {A : Type} (e : event) (r : result A) : M A :=
  ([e], match r with Ok a => Ret a | Err msg => Throw msg end).

Definition trace {A : Type} (c : M A) : list event := fst c.
Definition final {A : Type} (c : M A) : outcome A := snd c.

(** A settled promise, as [Promise.allSettled] reports it. *)
Inductive settled (A : Type) : Type :=
| Fulfilled (value : A)
| Rejected (msg : string).
Arguments Rejected {A} msg.

Definition settle {A : Type} (c : M A) : M (settled A) :=
  match c with
  | (t, Ret a) => (t, Ret (Fulfilled a))
  | (t, Throw msg) => (t, Ret (Rejected msg))
  | (t, OutOfFuel) => (t, OutOfFuel)
  end.

(** [Promise.all]: every promise of the array has been started, so the
    events of all of them occur; the result is the array of values, or
    a rejection when one of them is rejected (here the first in array
    order). *)
Fixpoint promise_all {A : Type} (ps : list (M A)) : M (list A) :=
  match ps with
  | [] => ([], Ret [])
  | p :: ps' =>
      let (t, r) := p in
      let (t', r') := promise_all ps' in
      (t ++ t',
       match r, r' with
       | Ret a, Ret l => Ret (a :: l)
       | Ret _, Throw msg => Throw msg
       | Throw msg, _ => Throw msg
       | OutOfFuel, _ | Ret _, OutOfFuel => OutOfFuel
       end)
  end.

(** [Promise.allSettled]: never rejected. *)
Definition promise_allSettled {A : Type} (ps : list (M A)) : M (list (settled A)) :=
  promise_all (map settle ps).

(** ** The outside of the program *)

(** The remote API and the file system.  A download is identified by
    the [index] label it is given, so that two downloads may get
    different answers to the same request. *)
Record World : Type := {
  world_thumb : string -> result Thumb;
  world_page : string -> nat -> nat -> result Page;
  world_image : number -> string -> result bytes;
  world_mkdir : number -> string -> result unit;
  world_writeFile : number -> string -> bytes -> result unit
}.

(** The packages the program imports: [slugify] called with
    [{lower: true, strict: true, trim: true}] (it throws on an argument
    it does not accept), [extension] of [mime-types] (no extension for
    a content type it does not know), [path.join] and [path.resolve]. *)
Record Lib : Type := {
  slugify : string -> result string;
  extension : string -> option string;
  path_join : string -> string -> string;
  path_resolve : string -> string
}.

Definition PER_PAGE : nat := 100.

(** [Math.ceil(a / b)] on integers, for a positive [b]. *)
Definition ceil_div (a b : Z) : Z := (- ((- a) / b))%Z.

(** [Array.from({ length: n }, (_, i) => f(i))]: empty when [n <= 0]. *)
Definition array_from {A : Type} (n : Z) (f : nat -> A) : list A :=
  map f (seq 0 (Z.to_nat n)).

(** The object [createChannelClient] returns. *)
Record ChannelClient : Type := {
  getThumb : M Thumb;
  getPage : nat -> nat -> M Page
}.

(** The test [chunkSize < 1 || chunkSize > 50]. *)
Definition chunk_size_rejected (chunkSize : number) : bool :=
  num_ltb chunkSize (num_of_Z 1) || num_ltb (num_of_Z 50) chunkSize.

Section Program.

Variable W : World.
Variable L : Lib.

Local Open Scope monad_scope.

Definition createChannelClient (slug : string) : ChannelClient :=
  {| getThumb := await (GetThumb slug) (world_thumb W slug);
     getPage := fun page per =>
       log (LogFetchingPage page) ;;
       catch (await (GetPage slug page per) (world_page W slug page per))
             (fun msg => log (ErrFailedPage page msg) ;; raise msg) |}.

(** [block.image?.original?.url], when it is truthy. *)
Definition image_url (block : Block) : option string :=
  match block_image block with
  | Some im =>
      match image_original im with
      | Some o =>
          match original_url o with
          | Some u => if (u =? "")%string then None else Some u
          | None => None
          end
      | None => None
      end
  | None => None
  end.

(** [block.title ? slugify(block.title, ...) : block.id], as the
    string the template literal makes of it. *)
Definition title_part (block : Block) : M string :=
  match block_title block with
  | Some t =>
      if (t =? "")%string then ret (ident_to_string (block_id block))
      else match slugify L t with
           | Ok s => ret s
           | Err msg => raise msg
           end
  | None => ret (ident_to_string (block_id block))
  end.

(** [extension(block.image.content_type) || 'bin']. *)
Definition ext_part (block : Block) : string :=
  match block_image block with
  | Some im =>
      match image_content_type im with
      | Some ct =>
          match extension L ct with
          | Some e => if (e =? "")%string then "bin" else e
          | None => "bin"
          end
      | None => "bin"
      end
  | None => "bin"
  end.

(** [`${block.id}_${title}.${ext}`]. *)
Definition make_filename (block : Block) (title ext : string) : string :=
  (ident_to_string (block_id block) ++ "_" ++ title ++ "." ++ ext)%string.

(** The lines under [// Generate filename]. *)
Definition filename_of (block : Block) : M string :=
  title <- title_part block ;;
  let ext := ext_part block in
  ret (make_filename block title ext).

Definition downloadBlock (block : Block) (options : Options) : M DownloadResult :=
  let slug := opt_slug options in
  let outputDir := opt_outputDir options in
  let index := opt_index options in
  log (LogDownload index (block_id block)) ;;
  match image_url block with
  | None =>
      log LogSkipped ;;
      ret {| success := false; filepath := None; reason := Some "no-image" |}
  | Some imageUrl =>
      log (LogImageUrl imageUrl) ;;
      catch
        (let channelDir := path_join L outputDir slug in
         await (Mkdir channelDir) (world_mkdir W index channelDir) ;;
         data <- await (GetImage imageUrl) (world_image W index imageUrl) ;;
         filename <- filename_of block ;;
         let filepath := path_join L channelDir filename in
         await (WriteFile filepath data) (world_writeFile W index filepath data) ;;
         log (LogSaved filename) ;;
         ret {| success := true; filepath := Some filepath; reason := None |})
        (fun msg =>
           log (ErrFailed msg) ;;
           ret {| success := false; filepath := None; reason := Some msg |})
  end.

(** The body of [results.forEach]. *)
Definition count_result (acc : nat * nat) (r : settled DownloadResult) : nat * nat :=
  let (downloaded, failed) := acc in
  match r with
  | Fulfilled v => if success v then (S downloaded, failed) else (downloaded, S failed)
  | Rejected _ => (downloaded, S failed)
  end.

(** The promises of one chunk: [chunk.map((block, idx) => downloadBlock(...))]. *)
Definition chunk_promises (slug resolvedOutputDir : string) (i : number)
    (chunk : list Block) : list (M DownloadResult) :=
  mapi (fun block idx =>
          downloadBlock block
            {| opt_slug := slug;
               opt_outputDir := resolvedOutputDir;
               opt_index := num_add (num_add i (num_of_nat idx)) (num_of_Z 1) |})
       chunk.

(** The body of the [for] loop at index [i], from the counters
    [(downloaded, failed)]: the chunk is settled, its results are
    counted and the progress line is printed. *)
Definition chunk_body (slug resolvedOutputDir : string) (chunkSize : number)
    (allContents : list Block) (i : number) (downloaded failed : nat) : M (nat * nat) :=
  let chunk := slice allContents i (num_add i chunkSize) in
  results <- promise_allSettled (chunk_promises slug resolvedOutputDir i chunk) ;;
  let counts := fold_left count_result results (downloaded, failed) in
  log (LogProgress (fst counts) (length allContents) (snd counts)) ;;
  ret counts.

(** The loop [for (let i = ...; i < allContents.length; i += chunkSize)]
    from the state [(i, downloaded, failed)].  [fuel] bounds the
    number of iterations. *)
Fixpoint chunk_loop (fuel : nat) (slug resolvedOutputDir : string)
    (chunkSize : number) (allContents : list Block)
    (i : number) (downloaded failed : nat) : M (nat * nat) :=
  if num_ltb i (num_of_nat (length allContents)) then
    match fuel with
    | O => ([], OutOfFuel)
    | S fuel' =>
        counts <- chunk_body slug resolvedOutputDir chunkSize allContents
                    i downloaded failed ;;
        chunk_loop fuel' slug resolvedOutputDir chunkSize allContents
                   (num_add i chunkSize) (fst counts) (snd counts)
    end
  else ret (downloaded, failed).

Definition downloadChannel (slug outputDir : string) (chunkSize : number) : M unit :=
  if (slug =? "")%string then raise "Valid channel slug is required"
  else if chunk_size_rejected chunkSize
  then raise "Chunk size must be between 1 and 50"
  else
    let resolvedOutputDir := path_resolve L outputDir in
    let client := createChannelClient slug in
    log (LogFetchingChannel slug) ;;
    catch
      (t <- getThumb client ;;
       log (LogChannelHas (thumb_title t) (thumb_length t)) ;;
       if (thumb_length t =? 0)%Z then log LogEmpty
       else
         let totalPages := ceil_div (thumb_length t) (Z.of_nat PER_PAGE) in
         let pagePromises :=
           array_from totalPages (fun i => getPage client (i + 1) PER_PAGE) in
         pages <- promise_all pagePromises ;;
         let allContents := flat_map page_contents pages in
         log (LogDownloading (length allContents) chunkSize) ;;
         counts <- chunk_loop (length allContents) slug resolvedOutputDir
                     chunkSize allContents (num_of_Z 0) 0 0 ;;
         log (LogDone (fst counts) (snd counts)))
      (fun msg => log (ErrFatal msg) ;; raise msg).

End Program.

(** The values [chunk] takes in the loop of [downloadChannel], one per
    iteration, in order. *)
Fixpoint loop_chunks {A : Type} (fuel : nat) (chunkSize : number)
    (allContents : list A) (i : number) : list (list A) :=
  if num_ltb i (num_of_nat (length allContents)) then
    match fuel with
    | O => []
    | S fuel' =>
        slice allContents i (num_add i chunkSize)
          :: loop_chunks fuel' chunkSize allContents (num_add i chunkSize)
    end
  else [].

(** ** Concrete libraries and a concrete world *)

Definition is_space (c : ascii) : bool :=
  let n := nat_of_ascii c in
  (n =? 32) || ((9 <=? n) && (n <=? 13)).

Definition is_alnum (c : ascii) : bool :=
  let n := nat_of_ascii c in
  ((48 <=? n) && (n <=? 57)) || ((65 <=? n) && (n <=? 90)) || ((97 <=? n) && (n <=? 122)).

Definition to_lower (c : ascii) : ascii :=
  let n := nat_of_ascii c in
  if (65 <=? n) && (n <=? 90) then ascii_of_nat (n + 32) else c.

(** The ASCII entries of the character map of [slugify]; the
    replacement character ['-'] is turned into a space. *)
Definition char_map (c : ascii) : list ascii :=
  match nat_of_ascii c with
  | 36 => list_ascii_of_string "dollar"
  | 37 => list_ascii_of_string "percent"
  | 38 => list_ascii_of_string "and"
  | 60 => list_ascii_of_string "less"
  | 62 => list_ascii_of_string "greater"
  | 124 => list_ascii_of_string "or"
  | 45 => [" "%char]
  | _ => [c]
  end.

(** The words of a text: its maximal runs without whitespace. *)
Fixpoint words_from (cur : list ascii) (s : list ascii) : list (list ascii) :=
  match s with
  | [] => match cur with [] => [] | _ => [rev cur] end
  | c :: s' =>
      if is_space c
      then match cur with
           | [] => words_from [] s'
           | _ => rev cur :: words_from [] s'
           end
      else words_from (c :: cur) s'
  end.

Fixpoint join_with (sep : ascii) (ws : list (list ascii)) : list ascii :=
  match ws with
  | [] => []
  | [w] => w
  | w :: ws' => w ++ sep :: join_with sep ws'
  end.

(** Modelled from the spec: the [slugify] package is not part of the
    repository.  The title is lowercased, stripped of the characters
    unsafe for file names and trimmed; on ASCII text, as the package
    does with [lower], [strict] and [trim]: the mapped characters are
    spelled out, every character that is not a letter, a digit or
    whitespace is removed, and each run of whitespace becomes one ['-']. *)
Definition slugify_ascii (s : string) : result string :=
  let mapped := flat_map char_map (list_ascii_of_string s) in
  let kept := filter (fun c => is_alnum c || is_space c) mapped in
  Ok (string_of_list_ascii (map to_lower (join_with "-"%char (words_from [] kept)))).

(** Modelled from the spec: the table of [mime-types] is not part of
    the repository.  The entries are the content types the spec names;
    every other content type is unrecognized. *)
Definition extension_table (ct : string) : option string :=
  if (ct =? "image/jpeg")%string then Some "jpg"
  else if (ct =? "image/png")%string then Some "png"
  else None.

Definition posix_join (a b : string) : string := (a ++ "/" ++ b)%string.

Definition resolve_from (cwd p : string) : string :=
  if (p =? ".")%string then cwd
  else match p with
       | String "/"%char _ => p
       | _ => posix_join cwd p
       end.

Definition node_lib : Lib :=
  {| slugify := slugify_ascii;
     extension := extension_table;
     path_join := posix_join;
     path_resolve := resolve_from "/home/user" |}.

Definition mk_image (u ct : string) : option Image :=
  Some {| image_original := Some {| original_url := Some u |};
          image_content_type := Some ct |}.

Definition red_sky : Block :=
  {| block_id := IdNum 42; block_title := Some "Red Sky!!";
     block_image := mk_image "https://img/42" "image/jpeg" |}.

Definition untitled : Block :=
  {| block_id := IdNum 7; block_title := None;
     block_image := mk_image "https://img/7" "image/png" |}.

Definition text_only : Block :=
  {| block_id := IdNum 9; block_title := Some "A note"; block_image := None |}.

Definition payload : bytes := [Byte.x89; Byte.x50].

(** A channel of [blocks] served in pages of [per]; every request
    succeeds. *)
Definition serve (blocks : list Block) : World :=
  {| world_thumb := fun _ =>
       Ok {| thumb_title := "Frogs"; thumb_length := Z.of_nat (length blocks) |};
     world_page := fun _ page per =>
       Ok {| page_contents := firstn per (skipn ((page - 1) * per) blocks) |};
     world_image := fun _ _ => Ok payload;
     world_mkdir := fun _ _ => Ok tt;
     world_writeFile := fun _ _ _ => Ok tt |}.

Definition three_blocks : list Block := [red_sky; untitled; text_only].

(** A block whose content type [mime-types] does not know. *)
Definition odd_type : Block :=
  {| block_id := IdStr "a1"; block_title := Some "Notes";
     block_image := mk_image "https://img/a1" "image/x-unknown" |}.

(** Three pages, the second of which answers with an error. *)
Definition page_two_down : World :=
  {| world_thumb := fun _ => Ok {| thumb_title := "Frogs"; thumb_length := 250 |};
     world_page := fun _ page _ =>
       if page =? 2 then Err "Request failed with status code 500"
       else Ok {| page_contents := [red_sky; untitled] |};
     world_image := fun _ _ => Ok payload;
     world_mkdir := fun _ _ => Ok tt;
     world_writeFile := fun _ _ _ => Ok tt |}.

(** A channel whose images all fail to download: the run returns, and
    reports the three blocks as failed. *)
Definition images_down : World :=
  {| world_thumb := world_thumb (serve three_blocks);
     world_page := world_page (serve three_blocks);
     world_image := fun _ _ => Err "timeout of 30000ms exceeded";
     world_mkdir := fun _ _ => Ok tt;
     world_writeFile := fun _ _ _ => Ok tt |}.

(** ** Observations on runs *)

(** A run that returns a value. *)
Definition returns {A : Type} (c : M A) : Prop := exists a, final c = Ret a.

(** The events of [downloadBlock]: its console lines and the calls of
    its steps. *)
Definition is_block_event (e : event) : bool :=
  match e with
  | Console (LogDownload _ _) | Console LogSkipped | Console (LogImageUrl _)
  | Console (LogSaved _) | Console (ErrFailed _) => true
  | GetImage _ | Mkdir _ | WriteFile _ _ => true
  | _ => false
  end.

(** A progress line of the loop. *)
Definition is_progress (e : event) : bool :=
  match e with
  | Console (LogProgress _ _ _) => true
  | _ => false
  end.

Definition is_page_fetch (e : event) : bool :=
  match e with
  | GetPage _ _ _ => true
  | _ => false
  end.

Definition is_network (e : event) : bool :=
  match e with
  | GetThumb _ | GetPage _ _ _ | GetImage _ => true
  | _ => false
  end.

Definition is_file_system (e : event) : bool :=
  match e with
  | Mkdir _ | WriteFile _ _ => true
  | _ => false
  end.

(** The events of a trace that are not progress lines. *)
Definition downloads_of (t : list event) : list event :=
  filter (fun e => negb (is_progress e)) t.

(** [downloaded + failed] on each progress line of a trace. *)
Definition progress_sums (t : list event) : list nat :=
  flat_map (fun e => match e with
                     | Console (LogProgress d _ f) => [d + f]
                     | _ => []
                     end) t.

(** The number of blocks settled after each chunk, from [n] settled
    before the first. *)
Fixpoint running_total {A : Type} (n : nat) (cs : list (list A)) : list nat :=
  match cs with
  | [] => []
  | c :: cs' => (n + length c) :: running_total (n + length c) cs'
  end.

(** A download that resolved to a success. *)
Definition succeeded (c : M DownloadResult) : bool :=
  match final c with
  | Ret r => success r
  | _ => false
  end.

Definition count_ok (ps : list (M DownloadResult)) : nat :=
  length (filter succeeded ps).

Definition count_ko (ps : list (M DownloadResult)) : nat :=
  length (filter (fun p => negb (succeeded p)) ps).

Definition has_no_image (block : Block) : bool :=
  match image_url block with
  | None => true
  | Some _ => false
  end.

(** The handler of [downloadChannel]: print the fatal error, throw again. *)
Definition fatal (msg : string) : M unit :=
  bind (log (ErrFatal msg)) (fun _ => raise msg).

(** The number of pages asked for. *)
Definition total_pages (t : Thumb) : nat :=
  Z.to_nat (ceil_div (thumb_length t) (Z.of_nat PER_PAGE)).

Section Observations.

Variable W : World.
Variable L : Lib.
Variable slug : string.
Variable resolvedOutputDir : string.

(** The download of the block at position [n] of [allContents]: its
    label is [n + 1]. *)
Definition download_at (n : nat) (block : Block) : M DownloadResult :=
  downloadBlock W L block
    {| opt_slug := slug;
       opt_outputDir := resolvedOutputDir;
       opt_index := num_of_nat (S n) |}.

(** The downloads of consecutive blocks, the first at position [n]. *)
Definition runs_from (n : nat) (blocks : list Block) : list (M DownloadResult) :=
  mapi_from (fun block idx => download_at idx block) n blocks.

(** The first error of the steps of [downloadBlock] on a block with a
    usable image URL: directory creation, image fetch, filename
    computation, file write. *)
Inductive step_error (block : Block) (options : Options) : string -> Prop :=
| mkdir_error msg :
    world_mkdir W (opt_index options)
      (path_join L (opt_outputDir options) (opt_slug options)) = Err msg ->
    step_error block options msg
| image_error u msg :
    image_url block = Some u ->
    world_mkdir W (opt_index options)
      (path_join L (opt_outputDir options) (opt_slug options)) = Ok tt ->
    world_image W (opt_index options) u = Err msg ->
    step_error block options msg
| filename_error u data msg :
    image_url block = Some u ->
    world_mkdir W (opt_index options)
      (path_join L (opt_outputDir options) (opt_slug options)) = Ok tt ->
    world_image W (opt_index options) u = Ok data ->
    final (filename_of L block) = Throw msg ->
    step_error block options msg
| write_error u data filename msg :
    image_url block = Some u ->
    world_mkdir W (opt_index options)
      (path_join L (opt_outputDir options) (opt_slug options)) = Ok tt ->
    world_image W (opt_index options) u = Ok data ->
    final (filename_of L block) = Ret filename ->
    world_writeFile W (opt_index options)
      (path_join L (path_join L (opt_outputDir options) (opt_slug options)) filename)
      data = Err msg ->
    step_error block options msg.

(** [pagePromises]. *)
Definition page_promises (t : Thumb) : list (M Page) :=
  array_from (ceil_div (thumb_length t) (Z.of_nat PER_PAGE))
    (fun i => getPage (createChannelClient W slug) (i + 1) PER_PAGE).

(** The events of the request for page [p]. *)
Definition page_request (p : nat) : list event :=
  [Console (LogFetchingPage p); GetPage slug p PER_PAGE].

Definition header (t : Thumb) : list event :=
  [Console (LogFetchingChannel slug); GetThumb slug;
   Console (LogChannelHas (thumb_title t) (thumb_length t))].

End Observations.

(** What follows [Promise.all] in the [try] block. *)
Definition download_phase (W : World) (L : Lib) (slug outputDir : string)
    (chunkSize : number) (pages : list Page) : M unit :=
  let allContents := flat_map page_contents pages in
  bind (log (LogDownloading (length allContents) chunkSize)) (fun _ =>
  bind (chunk_loop W L (length allContents) slug (path_resolve L outputDir)
          chunkSize allContents (num_of_Z 0) 0 0) (fun counts =>
  log (LogDone (fst counts) (snd counts)))).

(** What makes a whole run fail: an invalid input, a failure of the
    summary request, or a failure of a page request. *)
Inductive fatal_cause (W : World) (slug : string) (chunkSize : number) : string -> Prop :=
| invalid_slug :
    slug = "" ->
    fatal_cause W slug chunkSize "Valid channel slug is required"
| invalid_chunk_size :
    chunk_size_rejected chunkSize = true ->
    fatal_cause W slug chunkSize "Chunk size must be between 1 and 50"
| summary_failure msg :
    world_thumb W slug = Err msg ->
    fatal_cause W slug chunkSize msg
| page_failure t p msg :
    world_thumb W slug = Ok t ->
    1 <= p <= total_pages t ->
    world_page W slug p PER_PAGE = Err msg ->
    fatal_cause W slug chunkSize msg.

(** The summary and every page of the channel are fetched, and
    [allContents] is the flattened contents of the pages. *)
Definition channel_contents (W : World) (slug : string) (allContents : list Block) : Prop :=
  exists t pages,
    world_thumb W slug = Ok t /\
    thumb_length t <> 0%Z /\
    Forall2 (fun p pg => world_page W slug p PER_PAGE = Ok pg) (seq 1 (total_pages t)) pages /\
    allContents = flat_map page_contents pages.

(** A chunk size that is an integer between 1 and 50. *)
Definition integer_in_range (c : number) : Prop :=
  match c with
  | Fin q => exists k : Z, (1 <= k <= 50)%Z /\ (q == inject_Z k)%Q
  | _ => False
  end.

(** A chunk size below 1 or above 50. *)
Definition below_1_or_above_50 (c : number) : Prop :=
  match c with
  | NaN => False
  | PosInf | NegInf => True
  | Fin q => (q < 1)%Q \/ (50 < q)%Q
  end.

(** ** The command line *)

(** The parsed arguments the handler of [get <slug>] receives. *)
Record Argv : Type := {
  argv_slug : string;
  argv_output : string;
  argv_chunkSize : number
}.

(** How the handler ends: it returns, or it ends the process with an
    exit code.  [HandlerOutOfFuel] belongs to the embedding only. *)
Inductive cli_outcome : Type :=
| HandlerReturned
| ProcessExit (code : nat)
| HandlerOutOfFuel.

(** The handler of the command:
    [try { await downloadChannel(argv.slug, argv.output, argv.chunkSize) }
     catch (error) { process.exit(1) }]. *)
Definition cli_handler (W : World) (L : Lib) (argv : Argv) : list event * cli_outcome :=
  match downloadChannel W L (argv_slug argv) (argv_output argv) (argv_chunkSize argv) with
  | (t, Ret _) => (t, HandlerReturned)
  | (t, Throw _) => (t, ProcessExit 1)
  | (t, OutOfFuel) => (t, HandlerOutOfFuel)
  end.

(** ** More observations *)

Definition is_mkdir (e : event) : bool :=
  match e with
  | Mkdir _ => true
  | _ => false
  end.

Definition is_get_image (e : event) : bool :=
  match e with
  | GetImage _ => true
  | _ => false
  end.

Definition is_write_file (e : event) : bool :=
  match e with
  | WriteFile _ _ => true
  | _ => false
  end.

(** A file-system event that stays with the directory [dir]: the
    directory created is [dir], a file written is [path.join(dir, name)]. *)
Definition fs_in_dir (L : Lib) (dir : string) (e : event) : Prop :=
  match e with
  | Mkdir d => d = dir
  | WriteFile p _ => exists name, p = path_join L dir name
  | _ => True
  end.

(** [Number.MAX_SAFE_INTEGER].  Up to it in absolute value an integer
    is a JavaScript number exactly, and the template literal prints it
    as its decimal numeral, which is what [ident_to_string] gives;
    beyond it the number is rounded, and from 1e21 it is printed with
    an exponent. *)
Definition MAX_SAFE_INTEGER : Z := 9007199254740991.

Definition safe_integer (n : Z) : Prop := (Z.abs n <= MAX_SAFE_INTEGER)%Z.

(** Whether a character occurs in a string. *)
Fixpoint has_char (c : ascii) (s : string) : bool :=
  match s with
  | EmptyString => false
  | String a s' => Ascii.eqb a c || has_char c s'
  end.

(** * Lemmas *)

(** ** Runs: traces and outcomes *)

Lemma bind_run {A B : Type} (t : list event) (a : A) (k : A -> M B) :
  bind ((t, Ret a) : M A) k = (t ++ trace (k a), final (k a)).
Proof. cbn. destruct (k a); reflexivity. Qed.

Lemma bind_log {B : Type} (c : console) (k : unit -> M B) :
  bind (log c) k = (Console c :: trace (k tt), final (k tt)).
Proof. unfold log, emit. rewrite bind_run. reflexivity. Qed.

Lemma run_eta {A : Type} (c : M A) : c = (trace c, final c).
Proof. destruct c; reflexivity. Qed.

Lemma settle_returns {A : Type} (c : M A) :
  returns c -> exists a, settle c = (trace c, Ret (Fulfilled a)) /\ final c = Ret a.
Proof.
  intros [a Ha]. destruct c as [t r]; cbn in *. subst r. exists a. split; reflexivity.
Qed.

Lemma promise_all_trace {A : Type} (ps : list (M A)) :
  trace (promise_all ps) = flat_map trace ps.
Proof.
  induction ps as [|[t r] ps IH]; [reflexivity|].
  cbn. destruct (promise_all ps) as [t' r']. cbn in *. now rewrite IH.
Qed.

(** [Promise.all] is rejected as soon as one run throws and none is
    cut short. *)
Lemma promise_all_throws {A : Type} (ps : list (M A)) :
  Forall (fun p => final p <> OutOfFuel) ps ->
  Exists (fun p => exists msg, final p = Throw msg) ps ->
  exists msg, final (promise_all ps) = Throw msg.
Proof.
  induction 1 as [|[t r] ps Hp Hps IH]; intros Hex.
  - inversion Hex.
  - cbn. destruct (promise_all ps) as [t' r'] eqn:E. cbn in *.
    destruct r as [a|m|]; [|eauto|congruence].
    inversion Hex as [? ? [m Hm]|? ? Hex']; subst; [discriminate|].
    destruct (IH Hex') as [m Hm]. cbn in Hm. subst r'. eauto.
Qed.

(** ** Numbers that are array indices *)

Lemma Qltb_lt (a b : Q) : Qltb a b = true <-> (a < b)%Q.
Proof. unfold Qltb, Qlt. apply Z.ltb_lt. Qed.

Lemma num_ltb_nat (a b : nat) : num_ltb (num_of_nat a) (num_of_nat b) = (a <? b).
Proof.
  unfold num_of_nat, num_of_Z, num_ltb, Qltb, inject_Z, Qnum, Qden.
  rewrite !Z.mul_1_r.
  destruct (Nat.ltb_spec a b); [apply Z.ltb_lt | apply Z.ltb_ge]; lia.
Qed.

Lemma num_add_nat (a b : nat) :
  num_add (num_of_nat a) (num_of_nat b) = num_of_nat (a + b).
Proof.
  unfold num_of_nat, num_of_Z, num_add, Qplus, inject_Z; cbn.
  rewrite !Z.mul_1_r, Nat2Z.inj_add. reflexivity.
Qed.

Lemma Qtrunc_nat (n : nat) : Qtrunc (inject_Z (Z.of_nat n)) = Z.of_nat n.
Proof.
  unfold Qtrunc; cbn.
  destruct (Z.ltb_spec (Z.of_nat n) 0); [lia|]. apply Z.div_1_r.
Qed.

Lemma clamp_nat (len n : nat) :
  clamp_index (Z.of_nat len) (to_integer_or_infinity (num_of_nat n))
  = Z.of_nat (Nat.min n len).
Proof.
  unfold num_of_nat, num_of_Z, to_integer_or_infinity, clamp_index.
  rewrite Qtrunc_nat. destruct (Z.ltb_spec (Z.of_nat n) 0); lia.
Qed.

(** On integer bounds [slice] is [firstn] after [skipn]. *)
Lemma slice_nat {A : Type} (l : list A) (n k : nat) :
  slice l (num_of_nat n) (num_of_nat (n + k)) = firstn k (skipn n l).
Proof.
  unfold slice. rewrite !clamp_nat, Nat2Z.id.
  replace (Z.to_nat (Z.of_nat (Nat.min (n + k) (length l)) - Z.of_nat (Nat.min n (length l))))
    with (Nat.min (n + k) (length l) - Nat.min n (length l)) by lia.
  destruct (Nat.le_gt_cases (length l) n) as [H|H].
  - rewrite !skipn_all2 by lia. now rewrite !firstn_nil.
  - replace (Nat.min n (length l)) with n by lia.
    destruct (Nat.le_gt_cases (n + k) (length l)) as [H'|H'].
    + f_equal. lia.
    + rewrite !firstn_all2; [reflexivity| |]; rewrite length_skipn; lia.
Qed.

(** ** One download *)

Section Downloads.

Variable W : World.
Variable L : Lib.

Lemma filename_of_run (block : Block) :
  exists r, filename_of L block = ([], r) /\ r <> OutOfFuel.
Proof.
  unfold filename_of, title_part.
  destruct (block_title block) as [t|]; [destruct (t =? "")%string|];
    try (eexists; split; [reflexivity | discriminate]).
  destruct (slugify L t); eexists; (split; [reflexivity | discriminate]).
Qed.

Lemma downloadBlock_no_image (block : Block) (options : Options) :
  image_url block = None ->
  downloadBlock W L block options
  = ([Console (LogDownload (opt_index options) (block_id block)); Console LogSkipped],
     Ret {| success := false; filepath := None; reason := Some "no-image" |}).
Proof. intros H. unfold downloadBlock. rewrite H. reflexivity. Qed.

Ltac settle_result :=
  eexists; split;
  [ reflexivity
  | first [ left; reflexivity
          | right; split; [reflexivity | split; [reflexivity | eexists; reflexivity]] ] ].

(** [downloadBlock] never throws: it returns a success, or a failure
    that carries a reason. *)
Lemma downloadBlock_returns (block : Block) (options : Options) :
  exists r, final (downloadBlock W L block options) = Ret r /\
            (success r = true \/
             success r = false /\ filepath r = None /\ exists msg, reason r = Some msg).
Proof.
  unfold downloadBlock.
  destruct (image_url block) as [u|]; [|cbn; settle_result].
  destruct (filename_of_run block) as [r [Ht Hr]].
  rewrite Ht. cbn.
  destruct (world_mkdir W _ _) as [[]|m]; cbn; [|settle_result].
  destruct (world_image W _ _) as [data|m]; cbn; [|settle_result].
  destruct r as [filename|m|]; cbn; [|settle_result|congruence].
  destruct (world_writeFile W _ _ _) as [[]|m]; cbn; settle_result.
Qed.

(** An error in a step is caught and becomes the reason of a failure. *)
Lemma downloadBlock_step_error (block : Block) (options : Options) (msg : string) :
  (exists u, image_url block = Some u) ->
  step_error W L block options msg ->
  final (downloadBlock W L block options)
  = Ret {| success := false; filepath := None; reason := Some msg |}.
Proof.
  intros [u Hu] Herr. unfold downloadBlock. rewrite Hu.
  destruct (filename_of_run block) as [r [Ht Hr]].
  rewrite Ht. cbn.
  destruct Herr as [msg H1 | u' msg Hu' H1 H2 | u' data msg Hu' H1 H2 H3
                   | u' data filename msg Hu' H1 H2 H3 H4];
    try (rewrite Hu in Hu'; injection Hu' as <-);
    rewrite H1; cbn; try reflexivity.
  - rewrite H2. reflexivity.
  - rewrite H2. rewrite Ht in H3. cbn in *. subst r. reflexivity.
  - rewrite H2. rewrite Ht in H3. cbn in *. subst r. cbn. rewrite H4. reflexivity.
Qed.

Lemma downloadBlock_events (block : Block) (options : Options) :
  forallb is_block_event (trace (downloadBlock W L block options)) = true.
Proof.
  unfold downloadBlock.
  destruct (image_url block) as [u|]; [|reflexivity].
  destruct (filename_of_run block) as [r [Ht Hr]].
  rewrite Ht. cbn.
  destruct (world_mkdir W _ _) as [[]|m]; cbn; [|reflexivity].
  destruct (world_image W _ _) as [data|m]; cbn; [|reflexivity].
  destruct r as [filename|m|]; cbn; [|reflexivity|congruence].
  destruct (world_writeFile W _ _ _) as [[]|m]; cbn; reflexivity.
Qed.

(** Every call of [downloadBlock] is seen in the trace: its first
    event is the line that announces the download. *)
Lemma downloadBlock_first_event (block : Block) (options : Options) :
  exists t,
    trace (downloadBlock W L block options)
    = Console (LogDownload (opt_index options) (block_id block)) :: t.
Proof. unfold downloadBlock. rewrite bind_log. now eexists. Qed.

End Downloads.

(** ** One chunk *)

Lemma mapi_from_ext {A B : Type} (f g : A -> nat -> B) (j : nat) (l : list A) :
  (forall a idx, f a idx = g a idx) -> mapi_from f j l = mapi_from g j l.
Proof.
  intros H. revert j. induction l as [|a l IH]; intros j; cbn; [reflexivity|].
  now rewrite H, IH.
Qed.

Lemma mapi_from_shift {A B : Type} (f : A -> nat -> B) (n j : nat) (l : list A) :
  mapi_from (fun a idx => f a (n + idx)) j l = mapi_from f (n + j) l.
Proof.
  revert j. induction l as [|a l IH]; intros j; cbn; [reflexivity|].
  rewrite IH. do 2 f_equal. lia.
Qed.

Lemma mapi_from_app {A B : Type} (f : A -> nat -> B) (j : nat) (l l' : list A) :
  mapi_from f j (l ++ l') = mapi_from f j l ++ mapi_from f (j + length l) l'.
Proof.
  revert j. induction l as [|a l IH]; intros j; cbn.
  - now rewrite Nat.add_0_r.
  - rewrite IH. do 3 f_equal. lia.
Qed.

Lemma mapi_from_length {A B : Type} (f : A -> nat -> B) (j : nat) (l : list A) :
  length (mapi_from f j l) = length l.
Proof. revert j. induction l; intros j; cbn; auto. Qed.

Section Pipeline.

Variable W : World.
Variable L : Lib.
Variable slug : string.
Variable resolvedOutputDir : string.

Lemma count_ok_ko (ps : list (M DownloadResult)) :
  count_ok ps + count_ko ps = length ps.
Proof.
  unfold count_ok, count_ko.
  induction ps as [|p ps IH]; cbn; [reflexivity|].
  destruct (succeeded p); cbn; lia.
Qed.

Lemma count_ok_cons (p : M DownloadResult) (ps : list (M DownloadResult)) :
  count_ok (p :: ps) = (if succeeded p then 1 else 0) + count_ok ps.
Proof. unfold count_ok. cbn. now destruct (succeeded p). Qed.

Lemma count_ko_cons (p : M DownloadResult) (ps : list (M DownloadResult)) :
  count_ko (p :: ps) = (if succeeded p then 0 else 1) + count_ko ps.
Proof. unfold count_ko. cbn. now destruct (succeeded p). Qed.

Lemma count_ok_app (ps qs : list (M DownloadResult)) :
  count_ok (ps ++ qs) = count_ok ps + count_ok qs.
Proof. unfold count_ok. now rewrite filter_app, length_app. Qed.

Lemma count_ko_app (ps qs : list (M DownloadResult)) :
  count_ko (ps ++ qs) = count_ko ps + count_ko qs.
Proof. unfold count_ko. now rewrite filter_app, length_app. Qed.

Lemma chunk_promises_nat (n : nat) (chunk : list Block) :
  chunk_promises W L slug resolvedOutputDir (num_of_nat n) chunk = runs_from W L slug resolvedOutputDir n chunk.
Proof.
  unfold chunk_promises, mapi, runs_from.
  transitivity (mapi_from (fun block idx => download_at W L slug resolvedOutputDir (n + idx) block) 0 chunk);
    [|now rewrite (mapi_from_shift (fun block idx => download_at W L slug resolvedOutputDir idx block)), Nat.add_0_r].
  apply mapi_from_ext. intros block idx. unfold download_at.
  rewrite num_add_nat. change (num_of_Z 1) with (num_of_nat 1).
  rewrite num_add_nat. do 3 f_equal. lia.
Qed.

Lemma chunk_promises_return (i : number) (chunk : list Block) :
  Forall returns (chunk_promises W L slug resolvedOutputDir i chunk).
Proof.
  unfold chunk_promises, mapi. generalize 0.
  induction chunk as [|b chunk IH]; intros j; cbn; constructor; auto.
  destruct (downloadBlock_returns W L b
              {| opt_slug := slug; opt_outputDir := resolvedOutputDir;
                 opt_index := num_add (num_add i (num_of_nat j)) (num_of_Z 1) |})
    as [r [Hr _]].
  now exists r.
Qed.

(** [Promise.allSettled] over runs that return: all fulfilled. *)
Lemma allSettled_run {A : Type} (ps : list (M A)) :
  Forall returns ps ->
  exists rs, promise_allSettled ps = (flat_map trace ps, Ret rs) /\
             Forall2 (fun p r => exists v, final p = Ret v /\ r = Fulfilled v) ps rs.
Proof.
  unfold promise_allSettled.
  induction 1 as [|p ps Hp _ [rs [IH1 IH2]]].
  - exists []. split; [reflexivity | constructor].
  - destruct (settle_returns Hp) as [a [Ha Hf]].
    exists (Fulfilled a :: rs). cbn. rewrite Ha, IH1.
    split; [reflexivity | constructor; eauto].
Qed.

Lemma count_settled (ps : list (M DownloadResult)) (rs : list (settled DownloadResult))
    (d f : nat) :
  Forall2 (fun p r => exists v, final p = Ret v /\ r = Fulfilled v) ps rs ->
  fold_left count_result rs (d, f) = (d + count_ok ps, f + count_ko ps).
Proof.
  intros H. revert d f.
  induction H as [|p r ps rs [v [Hv ->]] _ IH]; intros d f.
  - cbn. now rewrite !Nat.add_0_r.
  - rewrite count_ok_cons, count_ko_cons.
    assert (Hs : succeeded p = success v) by (unfold succeeded; now rewrite Hv).
    rewrite Hs. cbn [fold_left count_result].
    destruct (success v); rewrite IH; f_equal; lia.
Qed.

(** The run of the loop body. *)
Lemma chunk_body_run (chunkSize : number) (allContents : list Block)
    (i : number) (d f : nat) :
  let ps := chunk_promises W L slug resolvedOutputDir i
              (slice allContents i (num_add i chunkSize)) in
  chunk_body W L slug resolvedOutputDir chunkSize allContents i d f
  = (flat_map trace ps
       ++ [Console (LogProgress (d + count_ok ps) (length allContents) (f + count_ko ps))],
     Ret (d + count_ok ps, f + count_ko ps)).
Proof.
  intros ps. unfold chunk_body. fold ps.
  destruct (allSettled_run (chunk_promises_return i (slice allContents i (num_add i chunkSize))))
    as [rs [Hrun Hrs]].
  fold ps in Hrun, Hrs. rewrite Hrun, bind_run.
  rewrite (count_settled d f Hrs). reflexivity.
Qed.

(** ** The chunks of the loop, for an integer chunk size *)

Lemma loop_chunks_step {A : Type} (fuel k : nat) (l : list A) (n : nat) :
  n < length l ->
  loop_chunks (S fuel) (num_of_nat k) l (num_of_nat n)
  = firstn k (skipn n l) :: loop_chunks fuel (num_of_nat k) l (num_of_nat (n + k)).
Proof.
  intros H. cbn [loop_chunks]. rewrite num_ltb_nat.
  apply Nat.ltb_lt in H. rewrite H. now rewrite num_add_nat, slice_nat.
Qed.

Lemma loop_chunks_done {A : Type} (fuel : nat) (c : number) (l : list A) (n : nat) :
  length l <= n -> loop_chunks fuel c l (num_of_nat n) = [].
Proof.
  intros H. apply Nat.ltb_ge in H.
  destruct fuel; cbn [loop_chunks]; rewrite num_ltb_nat, H; reflexivity.
Qed.

Lemma skipn_add {A : Type} (n k : nat) (l : list A) :
  skipn (n + k) l = skipn k (skipn n l).
Proof. rewrite skipn_skipn. f_equal. lia. Qed.

(** The chunks are consecutive pieces of the list: each holds between
    one and [k] blocks, and each but the last holds [k]. *)
Lemma loop_chunks_partition {A : Type} (k : nat) (l : list A) :
  1 <= k ->
  forall fuel n, length l - n <= fuel ->
    let cs := loop_chunks fuel (num_of_nat k) l (num_of_nat n) in
    concat cs = skipn n l /\
    Forall (fun c => 1 <= length c <= k) cs /\
    Forall (fun c => length c = k) (removelast cs).
Proof.
  intros Hk. induction fuel as [|fuel IH]; intros n Hfuel.
  - rewrite loop_chunks_done by lia. cbn.
    rewrite skipn_all2 by lia. repeat split; constructor.
  - destruct (Nat.le_gt_cases (length l) n) as [Hn|Hn].
    + rewrite loop_chunks_done by lia. cbn.
      rewrite skipn_all2 by lia. repeat split; constructor.
    + rewrite loop_chunks_step by assumption.
      destruct (IH (n + k)) as [IHc [IHs IHf]]; [lia|].
      cbv zeta. split; [|split].
      * cbn [concat]. rewrite IHc, skipn_add. apply firstn_skipn.
      * constructor; [|assumption].
        rewrite length_firstn, length_skipn. lia.
      * destruct (Nat.le_gt_cases (length l) (n + k)) as [Hl|Hl].
        -- rewrite (loop_chunks_done fuel (num_of_nat k) l Hl). constructor.
        -- destruct (loop_chunks fuel (num_of_nat k) l (num_of_nat (n + k))) as [|c cs] eqn:E.
           ++ constructor.
           ++ change (removelast (firstn k (skipn n l) :: c :: cs))
                with (firstn k (skipn n l) :: removelast (c :: cs)).
              constructor; [|assumption].
              rewrite length_firstn, length_skipn. lia.
Qed.

(** ** The run of the loop, for an integer chunk size *)

Lemma block_events_no_progress (t : list event) :
  forallb is_block_event t = true ->
  downloads_of t = t /\ progress_sums t = [].
Proof.
  induction t as [|e t IH]; cbn; [auto|].
  intros H. apply andb_prop in H as [He Ht]. destruct (IH Ht) as [IH1 IH2].
  unfold downloads_of in *.
  destruct e as [[]| | | | |]; try discriminate; cbn; rewrite ?IH1, ?IH2; auto.
Qed.

Lemma runs_events (n : nat) (blocks : list Block) :
  forallb is_block_event (flat_map trace (runs_from W L slug resolvedOutputDir n blocks)) = true.
Proof.
  unfold runs_from. revert n.
  induction blocks as [|b blocks IH]; intros n; [reflexivity|].
  cbn [mapi_from flat_map].
  rewrite forallb_app, IH, andb_true_r. apply downloadBlock_events.
Qed.

Lemma runs_split (k n : nat) (l : list Block) :
  runs_from W L slug resolvedOutputDir n (skipn n l) = runs_from W L slug resolvedOutputDir n (firstn k (skipn n l)) ++ runs_from W L slug resolvedOutputDir (n + k) (skipn (n + k) l).
Proof.
  rewrite skipn_add. set (rest := skipn n l).
  rewrite <- (firstn_skipn k rest) at 1.
  unfold runs_from. rewrite mapi_from_app. f_equal.
  destruct (Nat.le_gt_cases k (length rest)) as [H|H].
  - now rewrite firstn_length_le.
  - rewrite skipn_all2 by lia. reflexivity.
Qed.

Lemma chunk_loop_int (k : nat) (l : list Block) :
  1 <= k ->
  forall fuel n d f, length l - n <= fuel ->
    exists t,
      chunk_loop W L fuel slug resolvedOutputDir (num_of_nat k) l (num_of_nat n) d f
      = (t, Ret (d + count_ok (runs_from W L slug resolvedOutputDir n (skipn n l)), f + count_ko (runs_from W L slug resolvedOutputDir n (skipn n l)))) /\
      downloads_of t = flat_map trace (runs_from W L slug resolvedOutputDir n (skipn n l)) /\
      progress_sums t
      = running_total (d + f) (loop_chunks fuel (num_of_nat k) l (num_of_nat n)).
Proof.
  intros Hk.
  assert (Hdone : forall fuel n d f, length l <= n ->
    exists t,
      chunk_loop W L fuel slug resolvedOutputDir (num_of_nat k) l (num_of_nat n) d f
      = (t, Ret (d + count_ok (runs_from W L slug resolvedOutputDir n (skipn n l)), f + count_ko (runs_from W L slug resolvedOutputDir n (skipn n l)))) /\
      downloads_of t = flat_map trace (runs_from W L slug resolvedOutputDir n (skipn n l)) /\
      progress_sums t
      = running_total (d + f) (loop_chunks fuel (num_of_nat k) l (num_of_nat n))).
  { intros fuel n d f Hn. exists [].
    rewrite loop_chunks_done by assumption. rewrite skipn_all2 by assumption.
    assert (Hc : num_ltb (num_of_nat n) (num_of_nat (length l)) = false)
      by (rewrite num_ltb_nat; now apply Nat.ltb_ge).
    destruct fuel; cbn [chunk_loop]; rewrite Hc; cbn;
      rewrite !Nat.add_0_r; repeat split; reflexivity. }
  induction fuel as [|fuel IH]; intros n d f Hfuel.
  - apply Hdone. lia.
  - destruct (Nat.le_gt_cases (length l) n) as [Hn|Hn]; [now apply Hdone|].
    rewrite loop_chunks_step by assumption.
    cbn [chunk_loop]. rewrite num_ltb_nat.
    pose proof Hn as Hn'. apply Nat.ltb_lt in Hn'. rewrite Hn'.
    rewrite chunk_body_run. cbv zeta.
    rewrite num_add_nat, slice_nat, chunk_promises_nat, bind_run.
    set (ps := runs_from W L slug resolvedOutputDir n (firstn k (skipn n l))).
    cbn [fst snd].
    destruct (IH (n + k) (d + count_ok ps) (f + count_ko ps)) as [t [Ht [Hd Hp]]]; [lia|].
    rewrite Ht. cbn [trace final fst snd].
    destruct (block_events_no_progress _ (runs_events n (firstn k (skipn n l))))
      as [Hd0 Hp0].
    fold ps in Hd0, Hp0.
    exists ((flat_map trace ps
             ++ [Console (LogProgress (d + count_ok ps) (length l) (f + count_ko ps))]) ++ t).
    rewrite (runs_split k n l). fold ps.
    rewrite count_ok_app, count_ko_app, flat_map_app.
    split; [now rewrite !Nat.add_assoc|]. split.
    + unfold downloads_of in *. rewrite !filter_app, Hd0, Hd. cbn.
      now rewrite app_nil_r.
    + unfold progress_sums in *. rewrite !flat_map_app, Hp0, Hp. cbn.
      assert (Hlen : length (firstn k (skipn n l)) = length ps)
        by (unfold ps, runs_from; now rewrite mapi_from_length).
      rewrite Hlen, <- (count_ok_ko ps).
      replace (d + count_ok ps + (f + count_ko ps)) with (d + f + (count_ok ps + count_ko ps)) by lia.
      reflexivity.
Qed.

End Pipeline.

(** ** The loop returns *)

Lemma Qfloor_step (x q : Q) :
  (1 <= q)%Q -> (Qfloor x + 1 <= Qfloor (x + q))%Z.
Proof.
  intros Hq. rewrite <- (Qfloor_Z (Qfloor x + 1)). apply Qfloor_resp_le.
  rewrite inject_Z_plus. apply Qplus_le_compat; [apply Qfloor_le | exact Hq].
Qed.

Lemma Qfloor_below (x : Q) (n : Z) :
  Qltb x (inject_Z n) = true -> (Qfloor x < n)%Z.
Proof.
  intros H. apply Qltb_lt in H. rewrite Zlt_Qlt.
  eapply Qle_lt_trans; [apply Qfloor_le | exact H].
Qed.

(** What the validation lets through: NaN, or a finite value between
    1 and 50. *)
Lemma chunk_size_accepted (c : number) :
  chunk_size_rejected c = false ->
  c = NaN \/ exists q, c = Fin q /\ (1 <= q)%Q /\ (q <= 50)%Q.
Proof.
  unfold chunk_size_rejected. intros H. apply orb_false_elim in H as [H1 H2].
  destruct c as [| | |q]; try discriminate; [now left|].
  right. exists q.
  change (Qltb q 1%Q = false) in H1. change (Qltb 50%Q q = false) in H2.
  split; [reflexivity|].
  split; apply Qnot_lt_le; intros Hlt; apply Qltb_lt in Hlt; congruence.
Qed.

Section Termination.

Variable W : World.
Variable L : Lib.
Variable slug : string.
Variable resolvedOutputDir : string.

Lemma chunk_loop_exit (fuel : nat) (c : number) (l : list Block) (i : number) (d f : nat) :
  num_ltb i (num_of_nat (length l)) = false ->
  chunk_loop W L fuel slug resolvedOutputDir c l i d f = ([], Ret (d, f)).
Proof. intros H. destruct fuel; cbn [chunk_loop]; rewrite H; reflexivity. Qed.

Lemma chunk_loop_enter (fuel : nat) (c : number) (l : list Block) (i : number) (d f : nat) :
  num_ltb i (num_of_nat (length l)) = true ->
  exists t d' f',
    chunk_loop W L (S fuel) slug resolvedOutputDir c l i d f
    = (t ++ trace (chunk_loop W L fuel slug resolvedOutputDir c l (num_add i c) d' f'),
       final (chunk_loop W L fuel slug resolvedOutputDir c l (num_add i c) d' f')).
Proof.
  intros H. cbn [chunk_loop]. rewrite H, chunk_body_run. cbv zeta.
  rewrite bind_run. cbn [fst snd]. eauto.
Qed.

Lemma chunk_loop_returns_fin (q : Q) (l : list Block) :
  (1 <= q)%Q ->
  forall fuel x d f,
    (Z.of_nat (length l) - Qfloor x <= Z.of_nat fuel)%Z ->
    returns (chunk_loop W L fuel slug resolvedOutputDir (Fin q) l (Fin x) d f).
Proof.
  intros Hq. induction fuel as [|fuel IH]; intros x d f Hfuel;
    destruct (num_ltb (Fin x) (num_of_nat (length l))) eqn:E;
    try (rewrite chunk_loop_exit by assumption; now eexists).
  - apply Qfloor_below in E. lia.
  - destruct (chunk_loop_enter fuel (Fin q) l (Fin x) d f E) as [t [d' [f' Heq]]].
    rewrite Heq. apply (IH (x + q)%Q d' f').
    apply Qfloor_below in E. pose proof (Qfloor_step x Hq). lia.
Qed.

Lemma chunk_loop_returns_nan (l : list Block) (fuel : nat) (i : number) (d f : nat) :
  1 <= fuel ->
  returns (chunk_loop W L fuel slug resolvedOutputDir NaN l i d f).
Proof.
  intros Hfuel. destruct fuel as [|fuel]; [lia|].
  destruct (num_ltb i (num_of_nat (length l))) eqn:E.
  - destruct (chunk_loop_enter fuel NaN l i d f E) as [t [d' [f' Heq]]].
    rewrite Heq. replace (num_add i NaN) with NaN by now destruct i.
    rewrite chunk_loop_exit by reflexivity. now eexists.
  - rewrite chunk_loop_exit by assumption. now eexists.
Qed.

(** The loop of [downloadChannel] returns for every chunk size the
    validation lets through: the bound on its iterations is never hit. *)
Lemma chunk_loop_returns (c : number) (l : list Block) :
  chunk_size_rejected c = false ->
  returns (chunk_loop W L (length l) slug resolvedOutputDir c l (num_of_Z 0) 0 0).
Proof.
  intros H. destruct (chunk_size_accepted c H) as [->|[q [-> [Hq _]]]].
  - destruct l as [|b l].
    + rewrite chunk_loop_exit by reflexivity. now eexists.
    + apply chunk_loop_returns_nan. cbn. lia.
  - apply chunk_loop_returns_fin; [assumption|]. cbn. lia.
Qed.

End Termination.

(** ** The run of [downloadChannel] *)

Lemma catch_bind_run {A B : Type} (t : list event) (a : A) (k : A -> M B)
    (h : string -> M B) :
  catch (bind ((t, Ret a) : M A) k) h
  = (t ++ trace (catch (k a) h), final (catch (k a) h)).
Proof.
  cbn. destruct (k a) as [t' [b|msg|]]; cbn; try reflexivity.
  destruct (h msg) as [t'' r]. cbn. now rewrite app_assoc.
Qed.

Lemma catch_bind_log {B : Type} (c : console) (k : unit -> M B) (h : string -> M B) :
  catch (bind (log c) k) h
  = (Console c :: trace (catch (k tt) h), final (catch (k tt) h)).
Proof. unfold log, emit. rewrite catch_bind_run. reflexivity. Qed.

Section Channel.

Variable W : World.
Variable L : Lib.
Variable slug : string.
Variable outputDir : string.
Variable chunkSize : number.

Lemma getPage_run (p per : nat) :
  getPage (createChannelClient W slug) p per
  = match world_page W slug p per with
    | Ok pg => ([Console (LogFetchingPage p); GetPage slug p per], Ret pg)
    | Err msg =>
        ([Console (LogFetchingPage p); GetPage slug p per; Console (ErrFailedPage p msg)],
         Throw msg)
    end.
Proof. cbn. destruct (world_page W slug p per); reflexivity. Qed.

Lemma page_promises_eq (t : Thumb) :
  page_promises W slug t
  = map (fun p => getPage (createChannelClient W slug) p PER_PAGE) (seq 1 (total_pages t)).
Proof.
  unfold page_promises, array_from, total_pages.
  rewrite <- seq_shift, map_map. apply map_ext. intros i.
  now rewrite Nat.add_1_r.
Qed.

Lemma downloadChannel_invalid_slug :
  slug = "" ->
  downloadChannel W L slug outputDir chunkSize
  = ([], Throw "Valid channel slug is required").
Proof. intros ->. reflexivity. Qed.

Lemma downloadChannel_rejected :
  slug <> "" -> chunk_size_rejected chunkSize = true ->
  downloadChannel W L slug outputDir chunkSize
  = ([], Throw "Chunk size must be between 1 and 50").
Proof.
  intros Hs Hc. unfold downloadChannel.
  apply String.eqb_neq in Hs. rewrite Hs, Hc. reflexivity.
Qed.

Lemma downloadChannel_thumb_fails (msg : string) :
  slug <> "" -> chunk_size_rejected chunkSize = false ->
  world_thumb W slug = Err msg ->
  downloadChannel W L slug outputDir chunkSize
  = ([Console (LogFetchingChannel slug); GetThumb slug; Console (ErrFatal msg)],
     Throw msg).
Proof.
  intros Hs Hc Ht. unfold downloadChannel.
  apply String.eqb_neq in Hs. rewrite Hs, Hc.
  cbn. rewrite Ht. reflexivity.
Qed.

Lemma downloadChannel_empty (t : Thumb) :
  slug <> "" -> chunk_size_rejected chunkSize = false ->
  world_thumb W slug = Ok t -> thumb_length t = 0%Z ->
  downloadChannel W L slug outputDir chunkSize
  = ([Console (LogFetchingChannel slug); GetThumb slug;
      Console (LogChannelHas (thumb_title t) 0); Console LogEmpty],
     Ret tt).
Proof.
  intros Hs Hc Ht Hlen. unfold downloadChannel.
  apply String.eqb_neq in Hs. rewrite Hs, Hc.
  cbn. rewrite Ht. cbn. rewrite Hlen. reflexivity.
Qed.

(** With a summary that reports blocks, the run goes on to the pages. *)
Lemma downloadChannel_unfold (t : Thumb) :
  slug <> "" -> chunk_size_rejected chunkSize = false ->
  world_thumb W slug = Ok t -> thumb_length t <> 0%Z ->
  let rest := catch (bind (promise_all (page_promises W slug t)) (download_phase W L slug outputDir chunkSize)) fatal in
  downloadChannel W L slug outputDir chunkSize
  = ([Console (LogFetchingChannel slug); GetThumb slug;
      Console (LogChannelHas (thumb_title t) (thumb_length t))] ++ trace rest,
     final rest).
Proof.
  intros Hs Hc Ht Hlen rest. unfold downloadChannel.
  apply String.eqb_neq in Hs. rewrite Hs, Hc.
  apply Z.eqb_neq in Hlen.
  rewrite bind_log.
  change (getThumb (createChannelClient W slug))
    with (([GetThumb slug], match world_thumb W slug with
                            | Ok a => Ret a
                            | Err msg => Throw msg
                            end) : M Thumb).
  rewrite Ht, catch_bind_run, catch_bind_log, Hlen.
  reflexivity.
Qed.

End Channel.

Section Pages.

Variable W : World.
Variable L : Lib.
Variable slug : string.
Variable outputDir : string.
Variable chunkSize : number.

Lemma pages_run (ps : list nat) (pages : list Page) :
  Forall2 (fun p pg => world_page W slug p PER_PAGE = Ok pg) ps pages ->
  promise_all (map (fun p => getPage (createChannelClient W slug) p PER_PAGE) ps)
  = (flat_map (page_request slug) ps, Ret pages).
Proof.
  induction 1 as [|p pg ps pages Hp _ IH]; [reflexivity|].
  cbn [map promise_all]. rewrite getPage_run, Hp, IH. reflexivity.
Qed.

Lemma pages_never_cut (ps : list nat) :
  Forall (fun c : M Page => final c <> OutOfFuel)
         (map (fun p => getPage (createChannelClient W slug) p PER_PAGE) ps).
Proof.
  induction ps as [|p ps IH]; cbn [map]; constructor; [|assumption].
  rewrite getPage_run. destruct (world_page W slug p PER_PAGE); discriminate.
Qed.

Lemma pages_fail (ps : list nat) (p : nat) (msg : string) :
  In p ps -> world_page W slug p PER_PAGE = Err msg ->
  exists msg',
    final (promise_all (map (fun p => getPage (createChannelClient W slug) p PER_PAGE) ps))
    = Throw msg'.
Proof.
  intros Hin Hp. apply promise_all_throws; [apply pages_never_cut|].
  apply Exists_exists.
  exists (getPage (createChannelClient W slug) p PER_PAGE). split.
  - apply in_map_iff. now exists p.
  - exists msg. rewrite getPage_run, Hp. reflexivity.
Qed.

(** Every page is asked for, whether or not a request fails, and
    asking for pages starts no download. *)
Lemma pages_trace (ps : list nat) :
  let t := trace (promise_all
                    (map (fun p => getPage (createChannelClient W slug) p PER_PAGE) ps)) in
  filter is_page_fetch t = map (fun p => GetPage slug p PER_PAGE) ps /\
  filter is_block_event t = [].
Proof.
  cbv zeta. rewrite promise_all_trace.
  induction ps as [|p ps [IH1 IH2]]; [split; reflexivity|].
  cbn [map flat_map]. rewrite !filter_app, IH1, IH2, getPage_run.
  destruct (world_page W slug p PER_PAGE); split; reflexivity.
Qed.

Lemma rest_page_fail (t : Thumb) (msg : string) :
  final (promise_all (page_promises W slug t)) = Throw msg ->
  catch (bind (promise_all (page_promises W slug t))
              (download_phase W L slug outputDir chunkSize)) fatal
  = (trace (promise_all (page_promises W slug t)) ++ [Console (ErrFatal msg)],
     Throw msg).
Proof.
  intros H. destruct (promise_all (page_promises W slug t)) as [tp r].
  cbn in H. subst r. reflexivity.
Qed.

Lemma rest_success (t : Thumb) (tp tl : list event) (pages : list Page)
    (counts : nat * nat) :
  promise_all (page_promises W slug t) = (tp, Ret pages) ->
  chunk_loop W L (length (flat_map page_contents pages)) slug (path_resolve L outputDir)
    chunkSize (flat_map page_contents pages) (num_of_Z 0) 0 0 = (tl, Ret counts) ->
  catch (bind (promise_all (page_promises W slug t))
              (download_phase W L slug outputDir chunkSize)) fatal
  = (tp ++ Console (LogDownloading (length (flat_map page_contents pages)) chunkSize)
        :: tl ++ [Console (LogDone (fst counts) (snd counts))],
     Ret tt).
Proof.
  intros Hp Hl. rewrite Hp, catch_bind_run. unfold download_phase.
  rewrite catch_bind_log, Hl, catch_bind_run. reflexivity.
Qed.

End Pages.

(** * Properties of the pipeline *)

(** ** Validation of the chunk size *)

Lemma below_1_or_above_50_rejected (c : number) :
  below_1_or_above_50 c -> chunk_size_rejected c = true.
Proof.
  unfold chunk_size_rejected.
  destruct c as [| | |q]; cbn [below_1_or_above_50]; try easy.
  intros [H|H]; apply Qltb_lt in H; apply orb_true_iff; [left|right]; exact H.
Qed.

(** C1, as the code has it: for every chunk size below 1 or above 50
    (0, negative values, values greater than 50, the infinities),
    [downloadChannel] throws before it issues any event, so before any
    network activity: no summary fetch, no page fetch, no image fetch. *)
Theorem out_of_range_chunk_size_is_fatal (W : World) (L : Lib)
    (slug outputDir : string) (chunkSize : number) :
  below_1_or_above_50 chunkSize ->
  downloadChannel W L slug outputDir chunkSize
  = ([], Throw (if (slug =? "")%string
                then "Valid channel slug is required"
                else "Chunk size must be between 1 and 50")).
Proof.
  intros H. apply below_1_or_above_50_rejected in H.
  destruct (String.eqb_spec slug "") as [Hs|Hs].
  - now apply downloadChannel_invalid_slug.
  - now apply downloadChannel_rejected.
Qed.

Lemma out_of_range_chunk_size_is_fatal_witness :
  below_1_or_above_50 (num_of_Z 51) /\
  downloadChannel (serve three_blocks) node_lib "frog" "." (num_of_Z 51)
  = ([], Throw "Chunk size must be between 1 and 50").
Proof.
  split.
  - right. reflexivity.
  - apply (@out_of_range_chunk_size_is_fatal (serve three_blocks) node_lib "frog" ".").
    right. reflexivity.
Defined.

(** C1 as stated fails: 2.5 is not an integer between 1 and 50, yet
    the run fetches the summary, a page and two images, and returns. *)
Lemma fractional_chunk_size_is_accepted :
  ~ integer_in_range (Fin (5 # 2)) /\
  final (downloadChannel (serve three_blocks) node_lib "frog" "." (Fin (5 # 2))) = Ret tt /\
  filter is_network
    (trace (downloadChannel (serve three_blocks) node_lib "frog" "." (Fin (5 # 2))))
  = [GetThumb "frog"; GetPage "frog" 1 100;
     GetImage "https://img/42"; GetImage "https://img/7"].
Proof.
  split; [|split; reflexivity].
  intros [k [_ Hk]]. unfold Qeq in Hk. cbn in Hk. lia.
Qed.

(** NaN, which the command line gives for a chunk size that is not a
    number, is neither below 1 nor above 50: the loop runs once, on an
    empty chunk. *)
Example nan_chunk_size_run :
  chunk_size_rejected NaN = false /\
  progress_sums (trace (downloadChannel (serve three_blocks) node_lib "frog" "." NaN)) = [0] /\
  last (trace (downloadChannel (serve three_blocks) node_lib "frog" "." NaN))
       (Console LogEmpty) = Console (LogDone 0 0).
Proof. repeat split; reflexivity. Qed.

(** ** Empty channel *)

(** C5: when the summary reports no block, the run returns after the
    summary fetch: no page fetch, no download, nothing but the summary
    request on the network. *)
Theorem empty_channel_does_nothing (W : World) (L : Lib)
    (slug outputDir : string) (chunkSize : number) (t : Thumb) :
  slug <> "" ->
  chunk_size_rejected chunkSize = false ->
  world_thumb W slug = Ok t ->
  thumb_length t = 0%Z ->
  let run := downloadChannel W L slug outputDir chunkSize in
  final run = Ret tt /\
  filter is_page_fetch (trace run) = [] /\
  filter is_block_event (trace run) = [] /\
  filter is_network (trace run) = [GetThumb slug] /\
  filter is_file_system (trace run) = [].
Proof.
  intros Hs Hc Ht Hlen run. unfold run.
  rewrite (@downloadChannel_empty W L slug outputDir chunkSize t Hs Hc Ht Hlen).
  repeat split; reflexivity.
Qed.

Lemma empty_channel_does_nothing_witness :
  "frog" <> "" /\
  chunk_size_rejected (num_of_Z 10) = false /\
  world_thumb (serve []) "frog" = Ok {| thumb_title := "Frogs"; thumb_length := 0 |} /\
  thumb_length {| thumb_title := "Frogs"; thumb_length := 0 |} = 0%Z /\
  final (downloadChannel (serve []) node_lib "frog" "." (num_of_Z 10)) = Ret tt /\
  filter is_page_fetch (trace (downloadChannel (serve []) node_lib "frog" "." (num_of_Z 10))) = [].
Proof.
  assert (Hs : "frog" <> "") by discriminate.
  split; [exact Hs|]. do 3 (split; [reflexivity|]).
  destruct (@empty_channel_does_nothing (serve []) node_lib "frog" "." (num_of_Z 10)
              {| thumb_title := "Frogs"; thumb_length := 0 |} Hs eq_refl eq_refl eq_refl)
    as [H1 [H2 _]].
  split; [exact H1 | exact H2].
Defined.

(** ** Blocks without an image *)

(** C7: a block without a usable image URL is skipped at once: the
    result is the skip outcome, and the download issues no network
    request and no file-system call. *)
Theorem block_without_image_is_skipped (W : World) (L : Lib)
    (block : Block) (options : Options) :
  image_url block = None ->
  let run := downloadBlock W L block options in
  final run = Ret {| success := false; filepath := None; reason := Some "no-image" |} /\
  trace run = [Console (LogDownload (opt_index options) (block_id block));
               Console LogSkipped] /\
  filter is_network (trace run) = [] /\
  filter is_file_system (trace run) = [].
Proof.
  intros H run. unfold run. rewrite (downloadBlock_no_image W L block options H).
  repeat split; reflexivity.
Qed.

Lemma block_without_image_is_skipped_witness :
  image_url text_only = None /\
  final (downloadBlock (serve three_blocks) node_lib text_only
           {| opt_slug := "frog"; opt_outputDir := "/home/user"; opt_index := num_of_Z 3 |})
  = Ret {| success := false; filepath := None; reason := Some "no-image" |}.
Proof.
  split; [reflexivity|].
  apply (@block_without_image_is_skipped (serve three_blocks) node_lib text_only
           {| opt_slug := "frog"; opt_outputDir := "/home/user"; opt_index := num_of_Z 3 |}).
  reflexivity.
Defined.

(** ** File names *)

(** C8: with [slugify] giving [red-sky] for the title [Red Sky!!], and
    [mime-types] giving [jpg] for [image/jpeg] and [png] for
    [image/png], block 42 titled [Red Sky!!] is saved as
    [42_red-sky.jpg] and the untitled block 7 as [7_7.png]; for a
    content type without a known extension the extension is [bin]. *)
Theorem filename_derivation (L : Lib) (block : Block) (im : Image) (ct title : string) :
  slugify L "Red Sky!!" = Ok "red-sky" ->
  extension L "image/jpeg" = Some "jpg" ->
  extension L "image/png" = Some "png" ->
  block_image block = Some im ->
  image_content_type im = Some ct ->
  extension L ct = None ->
  title_part L block = ([], Ret title) ->
  filename_of L red_sky = ([], Ret "42_red-sky.jpg") /\
  filename_of L untitled = ([], Ret "7_7.png") /\
  filename_of L block
  = ([], Ret (ident_to_string (block_id block) ++ "_" ++ title ++ ".bin")%string).
Proof.
  intros Hslug Hjpeg Hpng Him Hct Hext Htitle. split; [|split].
  - unfold filename_of, title_part, ext_part. cbn. rewrite Hslug, Hjpeg. reflexivity.
  - unfold filename_of, title_part, ext_part. cbn. rewrite Hpng. reflexivity.
  - unfold filename_of, ext_part. rewrite Htitle, Him, Hct, Hext. reflexivity.
Qed.

Lemma filename_derivation_witness :
  slugify node_lib "Red Sky!!" = Ok "red-sky" /\
  extension node_lib "image/jpeg" = Some "jpg" /\
  extension node_lib "image/png" = Some "png" /\
  extension node_lib "image/x-unknown" = None /\
  filename_of node_lib red_sky = ([], Ret "42_red-sky.jpg") /\
  filename_of node_lib untitled = ([], Ret "7_7.png") /\
  filename_of node_lib odd_type = ([], Ret "a1_notes.bin").
Proof.
  do 4 (split; [reflexivity|]).
  exact (@filename_derivation node_lib odd_type
           {| image_original := Some {| original_url := Some "https://img/a1" |};
              image_content_type := Some "image/x-unknown" |}
           "image/x-unknown" "notes"
           eq_refl eq_refl eq_refl eq_refl eq_refl eq_refl eq_refl).
Defined.

(** When every step succeeds the file is written under the computed
    name, in the directory of the channel. *)
Lemma downloadBlock_saves (W : World) (L : Lib) (block : Block) (options : Options)
    (u filename : string) (data : bytes) :
  let channelDir := path_join L (opt_outputDir options) (opt_slug options) in
  let filepath := path_join L channelDir filename in
  image_url block = Some u ->
  world_mkdir W (opt_index options) channelDir = Ok tt ->
  world_image W (opt_index options) u = Ok data ->
  filename_of L block = ([], Ret filename) ->
  world_writeFile W (opt_index options) filepath data = Ok tt ->
  downloadBlock W L block options
  = ([Console (LogDownload (opt_index options) (block_id block));
      Console (LogImageUrl u); Mkdir channelDir; GetImage u;
      WriteFile filepath data; Console (LogSaved filename)],
     Ret {| success := true; filepath := Some filepath; reason := None |}).
Proof.
  intros channelDir filepath' Hu Hm Hi Hf Hw. unfold downloadBlock.
  rewrite Hu, Hf. cbn. fold channelDir. rewrite Hm. cbn. rewrite Hi. cbn.
  fold filepath'. rewrite Hw. reflexivity.
Qed.

(** ** The shape of a run *)

Lemma promise_all_throw_inv {A : Type} (ps : list (M A)) (msg : string) :
  final (promise_all ps) = Throw msg ->
  Exists (fun p => final p = Throw msg) ps.
Proof.
  induction ps as [|[t r] ps IH]; cbn; [discriminate|].
  destruct (promise_all ps) as [t' r']. cbn in *.
  destruct r as [a|m|].
  - destruct r' as [l|m'|]; try discriminate.
    intros H. injection H as <-. right. now apply IH.
  - intros H. injection H as <-. now left.
  - discriminate.
Qed.

Lemma promise_all_cases {A : Type} (ps : list (M A)) :
  Forall (fun p => final p <> OutOfFuel) ps ->
  (exists l, final (promise_all ps) = Ret l) \/
  (exists msg, final (promise_all ps) = Throw msg).
Proof.
  induction 1 as [|[t r] ps Hp _ IH]; [left; now exists []|].
  cbn. destruct (promise_all ps) as [t' r']. cbn in *.
  destruct r as [a|m|]; [|right; eauto|congruence].
  destruct IH as [[l ->]|[m ->]]; [left|right]; eauto.
Qed.

Section Shape.

Variable W : World.
Variable L : Lib.
Variable slug : string.
Variable outputDir : string.
Variable chunkSize : number.

Lemma chunk_promises_events (dir : string) (i : number) (chunk : list Block) :
  forallb is_block_event (flat_map trace (chunk_promises W L slug dir i chunk)) = true.
Proof.
  unfold chunk_promises, mapi. generalize 0.
  induction chunk as [|b chunk IH]; intros j; [reflexivity|].
  cbn [mapi_from flat_map].
  rewrite forallb_app, IH, andb_true_r. apply downloadBlock_events.
Qed.

(** The loop issues the events of downloads and progress lines only. *)
Lemma chunk_loop_events (dir : string) (l : list Block) (fuel : nat) :
  forall i d f,
    forallb (fun e => is_block_event e || is_progress e)
            (trace (chunk_loop W L fuel slug dir chunkSize l i d f)) = true.
Proof.
  induction fuel as [|fuel IH]; intros i d f;
    destruct (num_ltb i (num_of_nat (length l))) eqn:E;
    try (rewrite chunk_loop_exit by assumption; reflexivity).
  - cbn [chunk_loop]. rewrite E. reflexivity.
  - cbn [chunk_loop]. rewrite E, chunk_body_run. cbv zeta.
    rewrite bind_run. cbn [trace fst snd].
    rewrite !forallb_app, IH, andb_true_r. cbn.
    rewrite andb_true_r.
    pose proof (chunk_promises_events dir i (slice l i (num_add i chunkSize))) as H.
    rewrite forallb_forall in *. intros e He. now rewrite (H e He).
Qed.

Lemma chunk_loop_no_page_fetch (dir : string) (l : list Block) (fuel : nat)
    (i : number) (d f : nat) :
  filter is_page_fetch (trace (chunk_loop W L fuel slug dir chunkSize l i d f)) = [].
Proof.
  pose proof (chunk_loop_events dir l fuel i d f) as H.
  induction (trace (chunk_loop W L fuel slug dir chunkSize l i d f)) as [|e t IH];
    [reflexivity|].
  cbn in H. apply andb_prop in H as [He Ht]. cbn.
  destruct e as [[]| | | | |]; try discriminate; cbn; auto.
Qed.

Lemma chunk_loop_no_page_fetch_trace (dir : string) (l : list Block) (fuel : nat)
    (i : number) (d f : nat) (tl : list event) (r : outcome (nat * nat)) :
  chunk_loop W L fuel slug dir chunkSize l i d f = (tl, r) ->
  filter is_page_fetch tl = [].
Proof.
  intros H. pose proof (chunk_loop_no_page_fetch dir l fuel i d f) as Hn.
  now rewrite H in Hn.
Qed.

(** Past the summary a run either is aborted by a page, before any
    download, or downloads the flattened contents and returns. *)
Lemma downloadChannel_cases (t : Thumb) :
  slug <> "" -> chunk_size_rejected chunkSize = false ->
  world_thumb W slug = Ok t -> thumb_length t <> 0%Z ->
  let pa := promise_all (page_promises W slug t) in
  (exists msg,
      final pa = Throw msg /\
      downloadChannel W L slug outputDir chunkSize
      = (header slug t ++ trace pa ++ [Console (ErrFatal msg)], Throw msg)) \/
  (exists pages tl counts,
      final pa = Ret pages /\
      chunk_loop W L (length (flat_map page_contents pages)) slug (path_resolve L outputDir)
        chunkSize (flat_map page_contents pages) (num_of_Z 0) 0 0 = (tl, Ret counts) /\
      downloadChannel W L slug outputDir chunkSize
      = (header slug t ++ trace pa
           ++ Console (LogDownloading (length (flat_map page_contents pages)) chunkSize)
           :: tl ++ [Console (LogDone (fst counts) (snd counts))],
         Ret tt)).
Proof.
  intros Hs Hc Ht Hlen pa. unfold pa.
  rewrite (@downloadChannel_unfold W L slug outputDir chunkSize t Hs Hc Ht Hlen).
  cbv zeta.
  destruct (promise_all_cases (ps := page_promises W slug t)) as [[pages Hp]|[msg Hp]].
  - rewrite page_promises_eq. apply pages_never_cut.
  - right.
    destruct (@chunk_loop_returns W L slug (path_resolve L outputDir) chunkSize
                (flat_map page_contents pages) Hc) as [counts Hl].
    exists pages, (trace (chunk_loop W L (length (flat_map page_contents pages)) slug
                     (path_resolve L outputDir) chunkSize (flat_map page_contents pages)
                     (num_of_Z 0) 0 0)), counts.
    split; [exact Hp|]. split; [rewrite <- Hl; apply run_eta|].
    erewrite rest_success.
    + reflexivity.
    + rewrite <- Hp. apply run_eta.
    + rewrite <- Hl. apply run_eta.
  - left. exists msg. split; [exact Hp|].
    rewrite (@rest_page_fail W L slug outputDir chunkSize t msg Hp). reflexivity.
Qed.

End Shape.

(** ** Page failures *)

(** C4: when the request for one of the pages fails, the run throws,
    whatever the other pages answer, and no download has been started:
    the trace holds no event of [downloadBlock]. *)
Theorem page_failure_aborts (W : World) (L : Lib) (slug outputDir : string)
    (chunkSize : number) (t : Thumb) (p : nat) (msg : string) :
  slug <> "" ->
  chunk_size_rejected chunkSize = false ->
  world_thumb W slug = Ok t ->
  thumb_length t <> 0%Z ->
  1 <= p <= total_pages t ->
  world_page W slug p PER_PAGE = Err msg ->
  let run := downloadChannel W L slug outputDir chunkSize in
  (exists msg', final run = Throw msg') /\
  filter is_block_event (trace run) = [].
Proof.
  intros Hs Hc Ht Hlen Hp Hpage run. unfold run.
  destruct (@pages_fail W slug (seq 1 (total_pages t)) p msg) as [msg' Hfail];
    [apply in_seq; lia | assumption |].
  rewrite <- page_promises_eq in Hfail.
  destruct (@downloadChannel_cases W L slug outputDir chunkSize t Hs Hc Ht Hlen)
    as [[m [Hm Heq]]|[pages [tl [counts [Hpages _]]]]]; [|congruence].
  rewrite Heq. split; [now exists m|].
  cbn [trace fst]. rewrite !filter_app, page_promises_eq.
  destruct (pages_trace W slug (seq 1 (total_pages t))) as [_ Hnone].
  rewrite Hnone. reflexivity.
Qed.

Lemma page_failure_aborts_witness :
  "frog" <> "" /\
  chunk_size_rejected (num_of_Z 10) = false /\
  world_thumb page_two_down "frog" = Ok {| thumb_title := "Frogs"; thumb_length := 250 |} /\
  1 <= 2 <= total_pages {| thumb_title := "Frogs"; thumb_length := 250 |} /\
  world_page page_two_down "frog" 2 PER_PAGE = Err "Request failed with status code 500" /\
  (exists msg', final (downloadChannel page_two_down node_lib "frog" "." (num_of_Z 10))
                = Throw msg') /\
  filter is_block_event
    (trace (downloadChannel page_two_down node_lib "frog" "." (num_of_Z 10))) = [].
Proof.
  assert (Hs : "frog" <> "") by discriminate.
  assert (Hl : thumb_length {| thumb_title := "Frogs"; thumb_length := 250 |} <> 0%Z)
    by discriminate.
  assert (Hp : 1 <= 2 <= total_pages {| thumb_title := "Frogs"; thumb_length := 250 |})
    by (vm_compute; lia).
  split; [exact Hs|]. do 2 (split; [reflexivity|]).
  split; [exact Hp|]. split; [reflexivity|].
  exact (@page_failure_aborts page_two_down node_lib "frog" "." (num_of_Z 10)
           {| thumb_title := "Frogs"; thumb_length := 250 |} 2
           "Request failed with status code 500" Hs eq_refl eq_refl Hl Hp eq_refl).
Defined.

(** ** Pages *)

Lemma total_pages_ceil (t : Thumb) :
  (0 < thumb_length t)%Z ->
  ((Z.of_nat (total_pages t) - 1) * 100 < thumb_length t <= Z.of_nat (total_pages t) * 100)%Z.
Proof.
  intros H. unfold total_pages, ceil_div, PER_PAGE.
  change (Z.of_nat 100) with 100%Z.
  pose proof (Z.div_mod (- thumb_length t) 100 ltac:(lia)) as Hdiv.
  pose proof (Z.mod_pos_bound (- thumb_length t) 100 ltac:(lia)) as Hmod.
  rewrite Z2Nat.id by lia. lia.
Qed.

(** C6: for a positive block count [n] pages are asked for, where [n]
    is the ceiling of the count over 100: pages 1 to [n], 100 blocks
    each, in this order; and when they all answer, the blocks that are
    downloaded are the concatenation of their contents, in page order
    and in the order within each page. *)
Theorem pages_are_fetched_and_flattened (W : World) (L : Lib)
    (slug outputDir : string) (chunkSize : number) (t : Thumb) :
  slug <> "" ->
  chunk_size_rejected chunkSize = false ->
  world_thumb W slug = Ok t ->
  (0 < thumb_length t)%Z ->
  let run := downloadChannel W L slug outputDir chunkSize in
  let n := total_pages t in
  ((Z.of_nat n - 1) * 100 < thumb_length t <= Z.of_nat n * 100)%Z /\
  filter is_page_fetch (trace run) = map (fun p => GetPage slug p 100) (seq 1 n) /\
  forall pages,
    Forall2 (fun p pg => world_page W slug p 100 = Ok pg) (seq 1 n) pages ->
    let allContents := concat (map page_contents pages) in
    exists tl counts,
      chunk_loop W L (length allContents) slug (path_resolve L outputDir)
        chunkSize allContents (num_of_Z 0) 0 0 = (tl, Ret counts) /\
      run = (header slug t ++ flat_map (page_request slug) (seq 1 n)
               ++ Console (LogDownloading (length allContents) chunkSize)
               :: tl ++ [Console (LogDone (fst counts) (snd counts))],
             Ret tt).
Proof.
  intros Hs Hc Ht Hlen run n.
  assert (Hlen' : thumb_length t <> 0%Z) by lia.
  split; [now apply total_pages_ceil|].
  destruct (pages_trace W slug (seq 1 n)) as [Hfetch _].
  fold n in Hfetch. unfold n in Hfetch. rewrite <- page_promises_eq in Hfetch.
  destruct (@downloadChannel_cases W L slug outputDir chunkSize t Hs Hc Ht Hlen')
    as [[m [Hm Heq]]|[pages' [tl [counts [Hpages [Hloop Heq]]]]]]; split.
  - unfold run. rewrite Heq. cbn [trace fst].
    rewrite !filter_app, Hfetch. cbn. now rewrite app_nil_r.
  - intros pages Hall. apply (pages_run W slug) in Hall.
    fold n in Hm. unfold n in Hm, Hall.
    rewrite <- page_promises_eq in Hall. rewrite Hall in Hm. discriminate.
  - unfold run. rewrite Heq. cbn [trace fst].
    rewrite !filter_app, Hfetch. cbn [filter is_page_fetch].
    rewrite filter_app, chunk_loop_no_page_fetch_trace with (1 := Hloop). cbn.
    now rewrite app_nil_r.
  - intros pages Hall allContents. apply (pages_run W slug) in Hall.
    unfold n in Hall. rewrite <- page_promises_eq in Hall.
    rewrite Hall in Hpages, Heq. cbn [trace final fst snd] in Hpages, Heq.
    injection Hpages as <-.
    unfold allContents. rewrite <- flat_map_concat_map.
    exists tl, counts. split; [exact Hloop | exact Heq].
Qed.

Lemma pages_are_fetched_and_flattened_witness :
  "frog" <> "" /\
  chunk_size_rejected (num_of_Z 10) = false /\
  world_thumb (serve (repeat text_only 101)) "frog"
  = Ok {| thumb_title := "Frogs"; thumb_length := 101 |} /\
  (0 < 101)%Z /\
  filter is_page_fetch
    (trace (downloadChannel (serve (repeat text_only 101)) node_lib "frog" "." (num_of_Z 10)))
  = [GetPage "frog" 1 100; GetPage "frog" 2 100].
Proof.
  assert (Hs : "frog" <> "") by discriminate.
  split; [exact Hs|]. do 2 (split; [reflexivity|]). split; [reflexivity|].
  destruct (@pages_are_fetched_and_flattened (serve (repeat text_only 101)) node_lib
              "frog" "." (num_of_Z 10) {| thumb_title := "Frogs"; thumb_length := 101 |}
              Hs eq_refl eq_refl eq_refl) as [_ [H _]].
  exact H.
Defined.

(** ** Failures of single blocks *)

Lemma total_pages_zero (t : Thumb) : thumb_length t = 0%Z -> total_pages t = 0.
Proof. intros H. unfold total_pages. rewrite H. reflexivity. Qed.

Lemma fatal_cause_throws (W : World) (L : Lib) (slug outputDir : string)
    (chunkSize : number) (msg : string) :
  fatal_cause W slug chunkSize msg ->
  exists msg', final (downloadChannel W L slug outputDir chunkSize) = Throw msg'.
Proof.
  intros Hcause.
  destruct (String.eqb_spec slug "") as [Hs|Hs].
  { rewrite downloadChannel_invalid_slug by assumption. now eexists. }
  destruct (chunk_size_rejected chunkSize) eqn:Hc.
  { rewrite downloadChannel_rejected by assumption. now eexists. }
  destruct Hcause as [H|H|m H|t p m Ht Hp Hpage]; try congruence.
  - rewrite (@downloadChannel_thumb_fails W L slug outputDir chunkSize m Hs Hc H).
    now eexists.
  - destruct (Z.eq_dec (thumb_length t) 0) as [Hz|Hz].
    + rewrite (total_pages_zero t Hz) in Hp. lia.
    + destruct (@pages_fail W slug (seq 1 (total_pages t)) p m) as [msg' Hfail];
        [apply in_seq; lia | assumption |].
      rewrite <- page_promises_eq in Hfail.
      destruct (@downloadChannel_cases W L slug outputDir chunkSize t Hs Hc Ht Hz)
        as [[m' [Hm Heq]]|[pages [tl [counts [Hpages _]]]]]; [|congruence].
      rewrite Heq. now eexists.
Qed.

Lemma page_throw_inv (W : World) (slug : string) (ps : list nat) (msg : string) :
  Exists (fun c : M Page => final c = Throw msg)
         (map (fun p => getPage (createChannelClient W slug) p PER_PAGE) ps) ->
  exists p, In p ps /\ world_page W slug p PER_PAGE = Err msg.
Proof.
  intros H. apply Exists_exists in H as [c [Hin Hc]].
  apply in_map_iff in Hin as [p [<- Hp]].
  exists p. split; [assumption|].
  rewrite getPage_run in Hc.
  destruct (world_page W slug p PER_PAGE); cbn in Hc; congruence.
Qed.

Lemma downloadChannel_outcome (W : World) (L : Lib) (slug outputDir : string)
    (chunkSize : number) :
  final (downloadChannel W L slug outputDir chunkSize) = Ret tt \/
  exists msg, final (downloadChannel W L slug outputDir chunkSize) = Throw msg /\
              fatal_cause W slug chunkSize msg.
Proof.
  destruct (String.eqb_spec slug "") as [Hs|Hs].
  { right. rewrite downloadChannel_invalid_slug by assumption.
    eexists. split; [reflexivity | now constructor]. }
  destruct (chunk_size_rejected chunkSize) eqn:Hc.
  { right. rewrite downloadChannel_rejected by assumption.
    eexists. split; [reflexivity | now constructor 2]. }
  destruct (world_thumb W slug) as [t|m] eqn:Ht.
  2:{ right. rewrite (@downloadChannel_thumb_fails W L slug outputDir chunkSize m Hs Hc Ht).
      exists m. split; [reflexivity | now constructor 3]. }
  destruct (Z.eq_dec (thumb_length t) 0) as [Hz|Hz].
  { left. now rewrite (@downloadChannel_empty W L slug outputDir chunkSize t Hs Hc Ht Hz). }
  destruct (@downloadChannel_cases W L slug outputDir chunkSize t Hs Hc Ht Hz)
    as [[m [Hm Heq]]|[pages [tl [counts [_ [_ Heq]]]]]]; rewrite Heq; [right|now left].
  exists m. split; [reflexivity|].
  apply promise_all_throw_inv in Hm. rewrite page_promises_eq in Hm.
  apply page_throw_inv in Hm as [p [Hin Hp]]. apply in_seq in Hin.
  apply (@page_failure W slug chunkSize t p m Ht); [lia | assumption].
Qed.

(** C2: [downloadBlock] always returns, and an error in one of its
    steps (directory creation, image fetch, file name, file write) is
    returned as a failure whose reason is the message of the error; a
    run of [downloadChannel] returns unless its input is invalid or the
    summary or a page cannot be fetched, whatever happens to the
    downloads of the blocks. *)
Theorem block_errors_do_not_escape (W : World) (L : Lib) :
  (forall block options,
      exists r,
        final (downloadBlock W L block options) = Ret r /\
        (success r = false -> exists msg, reason r = Some msg) /\
        forall msg,
          image_url block <> None ->
          step_error W L block options msg ->
          r = {| success := false; filepath := None; reason := Some msg |}) /\
  (forall slug outputDir chunkSize,
      let run := downloadChannel W L slug outputDir chunkSize in
      (final run = Ret tt /\ ~ exists msg, fatal_cause W slug chunkSize msg) \/
      (exists msg, final run = Throw msg /\ fatal_cause W slug chunkSize msg)).
Proof.
  split.
  - intros block options.
    destruct (downloadBlock_returns W L block options) as [r [Hr Hshape]].
    exists r. split; [exact Hr|]. split.
    + intros Hfalse. destruct Hshape as [Htrue|[_ [_ Hmsg]]]; [congruence | exact Hmsg].
    + intros msg Hu Herr.
      destruct (image_url block) as [u|] eqn:Eu; [|congruence].
      assert (Hfail := @downloadBlock_step_error W L block options msg
                         (ex_intro _ u Eu) Herr).
      congruence.
  - intros slug outputDir chunkSize run. unfold run.
    destruct (downloadChannel_outcome W L slug outputDir chunkSize) as [Hret|Hthrow].
    + left. split; [exact Hret|]. intros [msg Hcause].
      destruct (@fatal_cause_throws W L slug outputDir chunkSize msg Hcause) as [msg' Hthrow].
      congruence.
    + now right.
Qed.

Example images_down_run :
  final (downloadChannel images_down node_lib "frog" "." (num_of_Z 2)) = Ret tt /\
  last (trace (downloadChannel images_down node_lib "frog" "." (num_of_Z 2)))
       (Console LogEmpty) = Console (LogDone 0 3) /\
  final (downloadBlock images_down node_lib red_sky
           {| opt_slug := "frog"; opt_outputDir := "/home/user"; opt_index := num_of_Z 1 |})
  = Ret {| success := false; filepath := None;
           reason := Some "timeout of 30000ms exceeded" |}.
Proof. repeat split; reflexivity. Qed.

(** ** Chunks *)

Lemma integer_chunk_size_accepted (k : nat) :
  1 <= k <= 50 -> chunk_size_rejected (num_of_nat k) = false.
Proof.
  intros Hk. unfold chunk_size_rejected.
  change (num_of_Z 1) with (num_of_nat 1). change (num_of_Z 50) with (num_of_nat 50).
  rewrite !num_ltb_nat. apply orb_false_iff. split; apply Nat.ltb_ge; lia.
Qed.

(** C3: for an integer chunk size [k] between 1 and 50, the chunks the
    loop takes are consecutive pieces of the flattened list: put end to
    end they give the list back, each holds at most [k] blocks and
    each but the last exactly [k]; the loop returns, the downloads it
    starts are those of the blocks of the list in their order, labelled
    1, 2, ..., and a progress line follows each chunk. *)
Theorem chunks_partition_the_blocks (W : World) (L : Lib) (slug dir : string)
    (k : nat) (allContents : list Block) :
  1 <= k <= 50 ->
  let chunkSize := num_of_nat k in
  let chunks := loop_chunks (length allContents) chunkSize allContents (num_of_Z 0) in
  concat chunks = allContents /\
  Forall (fun c => 1 <= length c <= k) chunks /\
  Forall (fun c => length c = k) (removelast chunks) /\
  exists tl counts,
    chunk_loop W L (length allContents) slug dir chunkSize allContents (num_of_Z 0) 0 0
    = (tl, Ret counts) /\
    downloads_of tl
    = flat_map trace (mapi (fun block idx => download_at W L slug dir idx block) allContents) /\
    progress_sums tl = running_total 0 chunks.
Proof.
  intros Hk chunkSize chunks.
  destruct (@loop_chunks_partition Block k allContents ltac:(lia) (length allContents) 0
              ltac:(lia)) as [Hconcat [Hsize Hfull]].
  destruct (@chunk_loop_int W L slug dir k allContents ltac:(lia) (length allContents) 0 0 0
              ltac:(lia)) as [tl [Hrun [Hdown Hprog]]].
  repeat split; try assumption.
  eexists tl, _. split; [exact Hrun|]. split; assumption.
Qed.

Lemma chunks_partition_the_blocks_witness :
  1 <= 2 <= 50 /\
  loop_chunks 3 (num_of_nat 2) three_blocks (num_of_Z 0) = [[red_sky; untitled]; [text_only]] /\
  concat (loop_chunks (length three_blocks) (num_of_nat 2) three_blocks (num_of_Z 0))
  = three_blocks.
Proof.
  assert (Hk : 1 <= 2 <= 50) by lia.
  split; [exact Hk|]. split; [reflexivity|].
  destruct (@chunks_partition_the_blocks (serve three_blocks) node_lib "frog" "/home/user"
              2 three_blocks Hk) as [H _].
  exact H.
Defined.

(** ** Counters *)

Lemma page_requests_no_progress (slug : string) (ps : list nat) :
  progress_sums (flat_map (page_request slug) ps) = [].
Proof. induction ps as [|p ps IH]; cbn; auto. Qed.

Lemma skipped_runs_fail (W : World) (L : Lib) (slug dir : string) (l : list Block) :
  forall n, length (filter has_no_image l) <= count_ko (runs_from W L slug dir n l).
Proof.
  induction l as [|b l IH]; intros n; [cbn; lia|].
  unfold runs_from in *. cbn [mapi_from filter]. rewrite count_ko_cons.
  specialize (IH (S n)).
  destruct (has_no_image b) eqn:E; cbn [length]; [|lia].
  unfold has_no_image in E. destruct (image_url b) eqn:E'; [discriminate|].
  assert (Hko : succeeded (download_at W L slug dir n b) = false).
  { unfold succeeded, download_at. now rewrite downloadBlock_no_image by assumption. }
  rewrite Hko. lia.
Qed.

(** A run with an integer chunk size on a channel whose pages are all
    fetched: what precedes the loop, the loop, the final summary. *)
Lemma downloadChannel_integer_run (W : World) (L : Lib) (slug outputDir : string)
    (k : nat) (allContents : list Block) :
  slug <> "" -> 1 <= k <= 50 -> channel_contents W slug allContents ->
  let runs := runs_from W L slug (path_resolve L outputDir) 0 allContents in
  exists pre tl,
    downloadChannel W L slug outputDir (num_of_nat k)
    = (pre ++ tl ++ [Console (LogDone (count_ok runs) (count_ko runs))], Ret tt) /\
    progress_sums pre = [] /\
    downloads_of tl = flat_map trace runs /\
    progress_sums tl
    = running_total 0 (loop_chunks (length allContents) (num_of_nat k) allContents (num_of_Z 0)).
Proof.
  intros Hs Hk [t [pages [Ht [Hlen [Hall ->]]]]] runs.
  pose proof (integer_chunk_size_accepted Hk) as Hc.
  apply (pages_run W slug) in Hall. rewrite <- page_promises_eq in Hall.
  destruct (@downloadChannel_cases W L slug outputDir (num_of_nat k) t Hs Hc Ht Hlen)
    as [[m [Hm _]]|[pages' [tl [counts [Hpages [Hloop Heq]]]]]].
  { rewrite Hall in Hm. discriminate. }
  rewrite Hall in Hpages, Heq. cbn [trace final fst snd] in Hpages, Heq.
  injection Hpages as <-.
  destruct (@chunk_loop_int W L slug (path_resolve L outputDir) k
              (flat_map page_contents pages) ltac:(lia)
              (length (flat_map page_contents pages)) 0 0 0 ltac:(lia))
    as [tl' [Hrun [Hdown Hprog]]].
  change (num_of_nat 0) with (num_of_Z 0) in Hrun, Hprog.
  rewrite Hrun in Hloop. injection Hloop as <- <-.
  exists (header slug t ++ flat_map (page_request slug) (seq 1 (total_pages t))
            ++ [Console (LogDownloading (length (flat_map page_contents pages))
                           (num_of_nat k))]), tl'.
  split; [|split; [|split]].
  - rewrite Heq. cbn [fst snd skipn]. f_equal.
    rewrite <- !app_assoc. reflexivity.
  - unfold progress_sums in *. rewrite !flat_map_app.
    fold (progress_sums (flat_map (page_request slug) (seq 1 (total_pages t)))).
    rewrite page_requests_no_progress. reflexivity.
  - exact Hdown.
  - exact Hprog.
Qed.

Lemma channel_contents_served :
  channel_contents (serve three_blocks) "frog" three_blocks.
Proof.
  exists {| thumb_title := "Frogs"; thumb_length := 3 |},
         [{| page_contents := three_blocks |}].
  split; [reflexivity|]. split; [discriminate|]. split; [|reflexivity].
  repeat constructor.
Defined.

(** With an integer chunk size between 1 and 50: the result of a block
    without an image has [success = false] and the reason [no-image],
    and the run counts it as failed: the [Failed] count of the final
    summary is at least the number of the blocks without an image, and
    none of them is among the downloaded. *)
Lemma skipped_blocks_count_as_failed (W : World) (L : Lib) (slug outputDir : string)
    (k : nat) (allContents : list Block) :
  slug <> "" ->
  1 <= k <= 50 ->
  channel_contents W slug allContents ->
  let run := downloadChannel W L slug outputDir (num_of_nat k) in
  let skipped := length (filter has_no_image allContents) in
  (forall block options,
      image_url block = None ->
      exists r,
        final (downloadBlock W L block options) = Ret r /\
        success r = false /\ reason r = Some "no-image") /\
  exists downloaded failed,
    final run = Ret tt /\
    last (trace run) (Console LogEmpty) = Console (LogDone downloaded failed) /\
    skipped <= failed /\
    downloaded + skipped <= length allContents.
Proof.
  intros Hs Hk Hch run skipped. split.
  - intros block options Hnone.
    rewrite (downloadBlock_no_image W L block options Hnone).
    eexists. repeat split; reflexivity.
  - destruct (@downloadChannel_integer_run W L slug outputDir k allContents Hs Hk Hch)
      as [pre [tl [Hrun _]]].
    set (runs := runs_from W L slug (path_resolve L outputDir) 0 allContents) in *.
    exists (count_ok runs), (count_ko runs). unfold run. rewrite Hrun.
    split; [reflexivity|]. split.
    + cbn [trace fst]. rewrite !app_assoc. apply last_last.
    + pose proof (skipped_runs_fail W L slug (path_resolve L outputDir) allContents 0) as Hko.
      pose proof (count_ok_ko runs) as Hsum.
      unfold runs, runs_from in Hsum. rewrite mapi_from_length in Hsum.
      fold (runs_from W L slug (path_resolve L outputDir) 0 allContents) in Hsum.
      fold runs in Hsum, Hko. unfold skipped. lia.
Qed.

Lemma skipped_blocks_count_as_failed_witness :
  "frog" <> "" /\
  1 <= 2 <= 50 /\
  channel_contents (serve three_blocks) "frog" three_blocks /\
  exists downloaded failed,
    final (downloadChannel (serve three_blocks) node_lib "frog" "." (num_of_nat 2)) = Ret tt /\
    last (trace (downloadChannel (serve three_blocks) node_lib "frog" "." (num_of_nat 2)))
         (Console LogEmpty) = Console (LogDone downloaded failed) /\
    length (filter has_no_image three_blocks) <= failed /\
    downloaded + length (filter has_no_image three_blocks) <= length three_blocks.
Proof.
  assert (Hs : "frog" <> "") by discriminate.
  assert (Hk : 1 <= 2 <= 50) by lia.
  split; [exact Hs|]. split; [exact Hk|]. split; [exact channel_contents_served|].
  destruct (@skipped_blocks_count_as_failed (serve three_blocks) node_lib "frog" "." 2
              three_blocks Hs Hk channel_contents_served) as [_ H].
  exact H.
Defined.

(** With an integer chunk size between 1 and 50: the sum
    [downloaded + failed] printed after each chunk is the number of
    blocks of the chunks settled so far, and in the final summary it
    is the length of the flattened list: [downloaded] counts the blocks
    whose download succeeded and [failed] the others. *)
Lemma counters_account_for_every_block (W : World) (L : Lib) (slug outputDir : string)
    (k : nat) (allContents : list Block) :
  slug <> "" ->
  1 <= k <= 50 ->
  channel_contents W slug allContents ->
  let run := downloadChannel W L slug outputDir (num_of_nat k) in
  let chunks := loop_chunks (length allContents) (num_of_nat k) allContents (num_of_Z 0) in
  let runs := mapi (fun block idx =>
                      download_at W L slug (path_resolve L outputDir) idx block)
                   allContents in
  progress_sums (trace run) = running_total 0 chunks /\
  exists downloaded failed,
    last (trace run) (Console LogEmpty) = Console (LogDone downloaded failed) /\
    downloaded + failed = length allContents /\
    downloaded = length (filter succeeded runs) /\
    failed = length (filter (fun p => negb (succeeded p)) runs).
Proof.
  intros Hs Hk Hch run chunks runs.
  destruct (@downloadChannel_integer_run W L slug outputDir k allContents Hs Hk Hch)
    as [pre [tl [Hrun [Hpre [_ Hprog]]]]].
  change (runs_from W L slug (path_resolve L outputDir) 0 allContents) with runs in Hrun.
  unfold run. rewrite Hrun. cbn [trace fst]. split.
  - unfold progress_sums in *. rewrite !flat_map_app, Hpre, Hprog. cbn.
    now rewrite app_nil_r.
  - exists (count_ok runs), (count_ko runs). split; [|split; [|split; reflexivity]].
    + rewrite !app_assoc. apply last_last.
    + rewrite count_ok_ko. unfold runs, mapi. apply mapi_from_length.
Qed.

Lemma counters_account_for_every_block_witness :
  "frog" <> "" /\
  1 <= 2 <= 50 /\
  channel_contents (serve three_blocks) "frog" three_blocks /\
  progress_sums (trace (downloadChannel (serve three_blocks) node_lib "frog" "." (num_of_nat 2)))
  = running_total 0 (loop_chunks (length three_blocks) (num_of_nat 2) three_blocks (num_of_Z 0)).
Proof.
  assert (Hs : "frog" <> "") by discriminate.
  assert (Hk : 1 <= 2 <= 50) by lia.
  split; [exact Hs|]. split; [exact Hk|]. split; [exact channel_contents_served|].
  destruct (@counters_account_for_every_block (serve three_blocks) node_lib "frog" "." 2
              three_blocks Hs Hk channel_contents_served) as [H _].
  exact H.
Defined.

(** The same run, computed: two chunks, two progress lines. *)
Example three_blocks_progress :
  progress_sums (trace (downloadChannel (serve three_blocks) node_lib "frog" "." (num_of_nat 2)))
  = [2; 3] /\
  last (trace (downloadChannel (serve three_blocks) node_lib "frog" "." (num_of_nat 2)))
       (Console LogEmpty) = Console (LogDone 2 1).
Proof. split; reflexivity. Qed.

(** * Further properties *)

(** ** The steps of a download *)

Lemma downloadBlock_saves_witness :
  image_url red_sky = Some "https://img/42" /\
  filename_of node_lib red_sky = ([], Ret "42_red-sky.jpg") /\
  downloadBlock (serve three_blocks) node_lib red_sky
    {| opt_slug := "frog"; opt_outputDir := "/home/user"; opt_index := num_of_Z 1 |}
  = ([Console (LogDownload (num_of_Z 1) (IdNum 42));
      Console (LogImageUrl "https://img/42"); Mkdir "/home/user/frog";
      GetImage "https://img/42";
      WriteFile "/home/user/frog/42_red-sky.jpg" payload;
      Console (LogSaved "42_red-sky.jpg")],
     Ret {| success := true; filepath := Some "/home/user/frog/42_red-sky.jpg";
            reason := None |}).
Proof.
  do 2 (split; [reflexivity|]).
  exact (@downloadBlock_saves (serve three_blocks) node_lib red_sky
           {| opt_slug := "frog"; opt_outputDir := "/home/user"; opt_index := num_of_Z 1 |}
           "https://img/42" "42_red-sky.jpg" payload
           eq_refl eq_refl eq_refl eq_refl eq_refl).
Defined.

(** A download reports a success only when every step has succeeded:
    the directory was created, the image was fetched, the file name
    was computed, and the bytes that were fetched were written at the
    path the result carries. *)
Theorem success_means_written (W : World) (L : Lib) (block : Block) (options : Options)
    (r : DownloadResult) :
  final (downloadBlock W L block options) = Ret r ->
  success r = true ->
  exists u data name,
    let channelDir := path_join L (opt_outputDir options) (opt_slug options) in
    image_url block = Some u /\
    world_mkdir W (opt_index options) channelDir = Ok tt /\
    world_image W (opt_index options) u = Ok data /\
    filename_of L block = ([], Ret name) /\
    world_writeFile W (opt_index options) (path_join L channelDir name) data = Ok tt /\
    filepath r = Some (path_join L channelDir name) /\
    In (WriteFile (path_join L channelDir name) data)
       (trace (downloadBlock W L block options)).
Proof.
  unfold downloadBlock.
  destruct (image_url block) as [u|]; [|cbn; intros [= <-]; discriminate].
  destruct (filename_of_run L block) as [rf [Hf _]].
  rewrite Hf. cbn.
  destruct (world_mkdir W _ _) as [[]|m] eqn:Hm; cbn; [|intros [= <-]; discriminate].
  destruct (world_image W _ _) as [data|m] eqn:Hi; cbn; [|intros [= <-]; discriminate].
  destruct rf as [name|m|]; cbn; [|intros [= <-]; discriminate|discriminate].
  destruct (world_writeFile W _ _ _) as [[]|m] eqn:Hw; cbn; [|intros [= <-]; discriminate].
  intros [= <-] _. exists u, data, name. cbn.
  repeat split; try assumption; try reflexivity. auto 10.
Qed.

Lemma success_means_written_witness :
  final (downloadBlock (serve three_blocks) node_lib untitled
           {| opt_slug := "frog"; opt_outputDir := "/home/user"; opt_index := num_of_Z 2 |})
  = Ret {| success := true; filepath := Some "/home/user/frog/7_7.png"; reason := None |} /\
  exists u data name,
    image_url untitled = Some u /\
    world_mkdir (serve three_blocks) (num_of_Z 2) "/home/user/frog" = Ok tt /\
    world_image (serve three_blocks) (num_of_Z 2) u = Ok data /\
    filename_of node_lib untitled = ([], Ret name) /\
    world_writeFile (serve three_blocks) (num_of_Z 2)
      (posix_join "/home/user/frog" name) data = Ok tt /\
    Some "/home/user/frog/7_7.png" = Some (posix_join "/home/user/frog" name) /\
    In (WriteFile (posix_join "/home/user/frog" name) data)
       (trace (downloadBlock (serve three_blocks) node_lib untitled
                 {| opt_slug := "frog"; opt_outputDir := "/home/user";
                    opt_index := num_of_Z 2 |})).
Proof.
  split; [reflexivity|].
  exact (@success_means_written (serve three_blocks) node_lib untitled
           {| opt_slug := "frog"; opt_outputDir := "/home/user"; opt_index := num_of_Z 2 |}
           {| success := true; filepath := Some "/home/user/frog/7_7.png"; reason := None |}
           eq_refl eq_refl).
Defined.

Ltac scan_trace H :=
  cbn in H;
  repeat match type of H with
         | _ \/ _ => destruct H as [H|H]
         | False => destruct H
         | _ = _ => first [discriminate H | injection H as ? ?; subst | injection H as ?; subst]
         end.

(** The steps of a download come in order and at most once: the image
    is requested only from the URL of the block and only after the
    directory was created, and a file is written only with the bytes
    of a fetch that succeeded. *)
Theorem no_write_without_fetch (W : World) (L : Lib) (block : Block) (options : Options) :
  let t := trace (downloadBlock W L block options) in
  let channelDir := path_join L (opt_outputDir options) (opt_slug options) in
  (forall u, In (GetImage u) t ->
     image_url block = Some u /\
     world_mkdir W (opt_index options) channelDir = Ok tt) /\
  (forall p data, In (WriteFile p data) t ->
     exists u, image_url block = Some u /\
               world_mkdir W (opt_index options) channelDir = Ok tt /\
               world_image W (opt_index options) u = Ok data) /\
  length (filter is_mkdir t) <= 1 /\
  length (filter is_get_image t) <= 1 /\
  length (filter is_write_file t) <= 1.
Proof.
  unfold downloadBlock.
  destruct (image_url block) as [u|].
  2:{ cbn. repeat split; try lia; intros; scan_trace H. }
  destruct (filename_of_run L block) as [rf [Hf _]].
  rewrite Hf. cbn.
  destruct (world_mkdir W _ _) as [[]|m] eqn:Hm; cbn.
  2:{ repeat split; try lia; intros; scan_trace H. }
  destruct (world_image W _ _) as [data|m] eqn:Hi; cbn.
  2:{ repeat split; try lia; intros; scan_trace H; auto. }
  destruct rf as [name|m|]; cbn.
  2:{ repeat split; try lia; intros; scan_trace H; auto. }
  2:{ repeat split; try lia; intros; scan_trace H; auto. }
  destruct (world_writeFile W _ _ _) as [[]|m] eqn:Hw; cbn;
    (repeat split; try lia; intros; scan_trace H; eauto).
Qed.

(** ** File names and identifiers *)

Lemma digits_no_underscore (d : Decimal.uint) :
  has_char "_" (NilEmpty.string_of_uint d) = false.
Proof. induction d; cbn; auto. Qed.

Lemma number_no_underscore (n : Z) :
  has_char "_" (ident_to_string (IdNum n)) = false.
Proof.
  unfold ident_to_string, NilZero.string_of_int, NilZero.string_of_uint.
  destruct (Z.to_int n) as [d|d]; destruct d; cbn;
    try reflexivity; apply digits_no_underscore.
Qed.

Lemma to_int_not_nil (z : Z) :
  Z.to_int z <> Decimal.Pos Decimal.Nil /\ Z.to_int z <> Decimal.Neg Decimal.Nil.
Proof.
  destruct z as [|p|p]; cbn; split; try discriminate;
    intros [= E]; now apply Unsigned.to_uint_nonnil in E.
Qed.

Lemma number_string_inj (n m : Z) :
  ident_to_string (IdNum n) = ident_to_string (IdNum m) -> n = m.
Proof.
  unfold ident_to_string. intros H. apply DecimalZ.to_int_inj.
  destruct (to_int_not_nil n) as [Hn1 Hn2]. destruct (to_int_not_nil m) as [Hm1 Hm2].
  pose proof (NilZero.isi (Z.to_int n) Hn1 Hn2) as En.
  pose proof (NilZero.isi (Z.to_int m) Hm1 Hm2) as Em.
  rewrite H in En. congruence.
Qed.

Lemma prefix_before_underscore (a b x y : string) :
  has_char "_" a = false -> has_char "_" b = false ->
  (a ++ String "_" x)%string = (b ++ String "_" y)%string -> a = b.
Proof.
  revert b. induction a as [|c a IH]; intros [|c' b] Ha Hb H; cbn in *.
  - reflexivity.
  - injection H as <- _. rewrite Ascii.eqb_refl in Hb. discriminate.
  - injection H as -> _. rewrite Ascii.eqb_refl in Ha. discriminate.
  - injection H as <- H. apply orb_false_elim in Ha as [_ Ha].
    apply orb_false_elim in Hb as [_ Hb]. f_equal. now apply IH.
Qed.

Lemma filename_of_inv (L : Lib) (block : Block) (name : string) :
  final (filename_of L block) = Ret name ->
  exists title, name = make_filename block title (ext_part L block).
Proof.
  unfold filename_of, title_part.
  destruct (block_title block) as [t|]; [destruct (t =? "")%string|]; cbn.
  - intros [= <-]. eauto.
  - destruct (slugify L t); cbn; [intros [= <-]; eauto | discriminate].
  - intros [= <-]. eauto.
Qed.

(** Two blocks whose numeric identifiers are different safe integers
    (at most [Number.MAX_SAFE_INTEGER] in absolute value, the range on
    which the identifier is printed as its decimal numeral) never get
    the same file name, whatever their titles and content types: the
    name starts with the identifier, and the identifier is closed by
    the first ['_']. *)
Theorem distinct_ids_distinct_names (L : Lib) (b1 b2 : Block) (n1 n2 : Z)
    (name1 name2 : string) :
  block_id b1 = IdNum n1 ->
  block_id b2 = IdNum n2 ->
  safe_integer n1 ->
  safe_integer n2 ->
  n1 <> n2 ->
  final (filename_of L b1) = Ret name1 ->
  final (filename_of L b2) = Ret name2 ->
  name1 <> name2.
Proof.
  intros H1 H2 _ _ Hne Hf1 Hf2 Heq.
  apply filename_of_inv in Hf1 as [t1 ->]. apply filename_of_inv in Hf2 as [t2 ->].
  unfold make_filename in Heq. rewrite H1, H2 in Heq. apply Hne.
  apply number_string_inj.
  apply (prefix_before_underscore _ _ _ _ (number_no_underscore n1)
           (number_no_underscore n2) Heq).
Qed.

Lemma distinct_ids_distinct_names_witness :
  block_id red_sky = IdNum 42 /\
  block_id untitled = IdNum 7 /\
  safe_integer 42 /\
  safe_integer 7 /\
  42%Z <> 7%Z /\
  final (filename_of node_lib red_sky) = Ret "42_red-sky.jpg" /\
  final (filename_of node_lib untitled) = Ret "7_7.png" /\
  "42_red-sky.jpg" <> "7_7.png".
Proof.
  assert (Hne : 42%Z <> 7%Z) by discriminate.
  assert (H42 : safe_integer 42) by (unfold safe_integer, MAX_SAFE_INTEGER; lia).
  assert (H7 : safe_integer 7) by (unfold safe_integer, MAX_SAFE_INTEGER; lia).
  do 2 (split; [reflexivity|]). split; [exact H42|]. split; [exact H7|].
  split; [exact Hne|]. do 2 (split; [reflexivity|]).
  exact (@distinct_ids_distinct_names node_lib red_sky untitled 42 7
           "42_red-sky.jpg" "7_7.png" eq_refl eq_refl H42 H7 Hne eq_refl eq_refl).
Defined.

(** With identifiers that are strings the first ['_'] no longer closes
    the identifier, and two blocks can get one file name. *)
Example string_ids_collide :
  filename_of node_lib
    {| block_id := IdStr "a_b"; block_title := None;
       block_image := mk_image "https://img/x" "image/png" |}
  = filename_of node_lib
      {| block_id := IdStr "a_b_a"; block_title := Some "b";
         block_image := mk_image "https://img/y" "image/png" |}.
Proof. reflexivity. Qed.

(** ** The order of the requests *)

Lemma network_of_downloads (t : list event) :
  forallb (fun e => is_block_event e || is_progress e) t = true ->
  exists urls, filter is_network t = map GetImage urls.
Proof.
  induction t as [|e t IH]; cbn; [now exists []|].
  intros H. apply andb_prop in H as [He Ht]. destruct (IH Ht) as [urls Hu].
  destruct e as [[]| | |u| |]; try discriminate; cbn; eauto.
  exists (u :: urls). cbn. now rewrite Hu.
Qed.

Lemma pages_network (W : World) (slug : string) (ps : list nat) :
  filter is_network
    (trace (promise_all (map (fun p => getPage (createChannelClient W slug) p PER_PAGE) ps)))
  = map (fun p => GetPage slug p PER_PAGE) ps.
Proof.
  rewrite promise_all_trace.
  induction ps as [|p ps IH]; [reflexivity|].
  cbn [map flat_map]. rewrite filter_app, IH, getPage_run.
  destruct (world_page W slug p PER_PAGE); reflexivity.
Qed.

(** In every run the requests follow the phases of the pipeline: no
    request at all when the input is invalid; otherwise the summary
    first and once, then the pages 1, 2, ... once each, then images
    only.  No image is requested before every page has been asked for,
    and nothing is requested twice from the API. *)
Theorem requests_follow_the_phases (W : World) (L : Lib) (slug outputDir : string)
    (chunkSize : number) :
  let t := trace (downloadChannel W L slug outputDir chunkSize) in
  (slug = "" \/ chunk_size_rejected chunkSize = true -> t = []) /\
  (slug <> "" /\ chunk_size_rejected chunkSize = false ->
   exists n urls,
     filter is_network t
     = GetThumb slug :: map (fun p => GetPage slug p 100) (seq 1 n) ++ map GetImage urls).
Proof.
  cbv zeta. split.
  - intros [Hs|Hc].
    + now rewrite downloadChannel_invalid_slug.
    + destruct (String.eqb_spec slug "") as [Hs|Hs].
      * now rewrite downloadChannel_invalid_slug.
      * now rewrite downloadChannel_rejected.
  - intros [Hs Hc].
    destruct (world_thumb W slug) as [t|m] eqn:Ht.
    2:{ rewrite (@downloadChannel_thumb_fails W L slug outputDir chunkSize m Hs Hc Ht).
        exists 0, []. reflexivity. }
    destruct (Z.eq_dec (thumb_length t) 0) as [Hz|Hz].
    { rewrite (@downloadChannel_empty W L slug outputDir chunkSize t Hs Hc Ht Hz).
      exists 0, []. reflexivity. }
    destruct (@downloadChannel_cases W L slug outputDir chunkSize t Hs Hc Ht Hz)
      as [[m [_ Heq]]|[pages [tl [counts [_ [Hloop Heq]]]]]]; rewrite Heq; cbn [trace fst].
    + exists (total_pages t), [].
      rewrite !filter_app, page_promises_eq, pages_network.
      cbn [filter is_network header app map]. reflexivity.
    + pose proof (chunk_loop_events W L slug chunkSize (path_resolve L outputDir)
                    (flat_map page_contents pages)
                    (length (flat_map page_contents pages)) (num_of_Z 0) 0 0) as Hev.
      rewrite Hloop in Hev. cbn [trace fst] in Hev.
      destruct (network_of_downloads tl Hev) as [urls Hu].
      exists (total_pages t), urls.
      rewrite !filter_app, page_promises_eq, pages_network. cbn [filter is_network header app].
      rewrite filter_app, Hu. cbn [filter is_network]. now rewrite app_nil_r.
Qed.

(** ** Where files go *)

Lemma downloadBlock_fs (W : World) (L : Lib) (block : Block) (options : Options) :
  Forall (fs_in_dir L (path_join L (opt_outputDir options) (opt_slug options)))
         (trace (downloadBlock W L block options)).
Proof.
  unfold downloadBlock.
  destruct (image_url block) as [u|]; [|cbn; repeat constructor].
  destruct (filename_of_run L block) as [rf [Hf _]].
  rewrite Hf. cbn.
  destruct (world_mkdir W _ _) as [[]|m]; cbn; [|repeat constructor].
  destruct (world_image W _ _) as [data|m]; cbn; [|repeat constructor].
  destruct rf as [name|m|]; cbn; [|repeat constructor..].
  destruct (world_writeFile W _ _ _) as [[]|m]; cbn;
    repeat (constructor; cbn; eauto).
Qed.

Lemma chunk_promises_fs (W : World) (L : Lib) (slug dir : string) (i : number)
    (chunk : list Block) :
  Forall (fs_in_dir L (path_join L dir slug))
         (flat_map trace (chunk_promises W L slug dir i chunk)).
Proof.
  unfold chunk_promises, mapi. generalize 0.
  induction chunk as [|b chunk IH]; intros j; [constructor|].
  cbn [mapi_from flat_map]. apply Forall_app. split; [|apply IH].
  apply (downloadBlock_fs W L b
           {| opt_slug := slug; opt_outputDir := dir;
              opt_index := num_add (num_add i (num_of_nat j)) (num_of_Z 1) |}).
Qed.

Lemma chunk_loop_fs (W : World) (L : Lib) (slug dir : string) (c : number)
    (l : list Block) (fuel : nat) :
  forall i d f,
    Forall (fs_in_dir L (path_join L dir slug))
           (trace (chunk_loop W L fuel slug dir c l i d f)).
Proof.
  induction fuel as [|fuel IH]; intros i d f;
    destruct (num_ltb i (num_of_nat (length l))) eqn:E;
    try (rewrite chunk_loop_exit by assumption; constructor).
  - cbn [chunk_loop]. rewrite E. constructor.
  - cbn [chunk_loop]. rewrite E, chunk_body_run. cbv zeta.
    rewrite bind_run. cbn [trace fst snd].
    repeat (apply Forall_app; split); [apply chunk_promises_fs | | apply IH].
    repeat constructor.
Qed.

Lemma pages_fs (W : World) (L : Lib) (slug dir : string) (ps : list nat) :
  Forall (fs_in_dir L dir)
    (trace (promise_all (map (fun p => getPage (createChannelClient W slug) p PER_PAGE) ps))).
Proof.
  rewrite promise_all_trace.
  induction ps as [|p ps IH]; [constructor|].
  cbn [map flat_map]. apply Forall_app. split; [|exact IH].
  rewrite getPage_run. destruct (world_page W slug p PER_PAGE); repeat constructor.
Qed.

(** In every run the only directory created is
    [path.join(path.resolve(outputDir), slug)], and every file written
    is [path.join] of that directory and a name: the run touches the
    file system nowhere else. *)
Theorem files_stay_with_the_channel (W : World) (L : Lib) (slug outputDir : string)
    (chunkSize : number) :
  Forall (fs_in_dir L (path_join L (path_resolve L outputDir) slug))
         (trace (downloadChannel W L slug outputDir chunkSize)).
Proof.
  destruct (String.eqb_spec slug "") as [Hs|Hs].
  { rewrite downloadChannel_invalid_slug by assumption. constructor. }
  destruct (chunk_size_rejected chunkSize) eqn:Hc.
  { rewrite downloadChannel_rejected by assumption. constructor. }
  destruct (world_thumb W slug) as [t|m] eqn:Ht.
  2:{ rewrite (@downloadChannel_thumb_fails W L slug outputDir chunkSize m Hs Hc Ht).
      repeat constructor. }
  destruct (Z.eq_dec (thumb_length t) 0) as [Hz|Hz].
  { rewrite (@downloadChannel_empty W L slug outputDir chunkSize t Hs Hc Ht Hz).
    repeat constructor. }
  destruct (@downloadChannel_cases W L slug outputDir chunkSize t Hs Hc Ht Hz)
    as [[m [_ Heq]]|[pages [tl [counts [_ [Hloop Heq]]]]]]; rewrite Heq; cbn [trace fst].
  - repeat (apply Forall_app; split); try (repeat constructor).
    rewrite page_promises_eq. apply pages_fs.
  - pose proof (chunk_loop_fs W L slug (path_resolve L outputDir) chunkSize
                  (flat_map page_contents pages)
                  (length (flat_map page_contents pages)) (num_of_Z 0) 0 0) as Hfs.
    rewrite Hloop in Hfs. cbn [trace fst] in Hfs.
    apply Forall_app. split; [repeat constructor|].
    apply Forall_app. split; [rewrite page_promises_eq; apply pages_fs|].
    constructor; [exact I|]. apply Forall_app. split; [exact Hfs | repeat constructor].
Qed.

(** ** What the validation lets through *)

Lemma rejected_below_1_or_above_50 (c : number) :
  chunk_size_rejected c = true -> below_1_or_above_50 c.
Proof.
  unfold chunk_size_rejected. intros H. apply orb_true_iff in H.
  destruct c as [| | |q]; cbn [below_1_or_above_50]; try exact I.
  - destruct H; discriminate.
  - change (Qltb q 1%Q = true \/ Qltb 50%Q q = true) in H.
    destruct H as [H|H]; apply Qltb_lt in H; auto.
Qed.

Lemma accepted_run_starts (W : World) (L : Lib) (slug outputDir : string)
    (chunkSize : number) :
  slug <> "" -> chunk_size_rejected chunkSize = false ->
  exists t,
    trace (downloadChannel W L slug outputDir chunkSize)
    = Console (LogFetchingChannel slug) :: GetThumb slug :: t.
Proof.
  intros Hs Hc.
  destruct (world_thumb W slug) as [t|m] eqn:Ht.
  2:{ rewrite (@downloadChannel_thumb_fails W L slug outputDir chunkSize m Hs Hc Ht).
      now eexists. }
  destruct (Z.eq_dec (thumb_length t) 0) as [Hz|Hz].
  { rewrite (@downloadChannel_empty W L slug outputDir chunkSize t Hs Hc Ht Hz).
    now eexists. }
  rewrite (@downloadChannel_unfold W L slug outputDir chunkSize t Hs Hc Ht Hz).
  now eexists.
Qed.

(** With a valid slug the run is stopped by the validation exactly
    when the chunk size is below 1 or above 50; every other value, a
    fraction or NaN included, starts the run: the channel line is
    printed and the summary is requested. *)
Theorem chunk_size_check_is_exact (W : World) (L : Lib) (slug outputDir : string)
    (chunkSize : number) :
  slug <> "" ->
  let run := downloadChannel W L slug outputDir chunkSize in
  (below_1_or_above_50 chunkSize <->
   run = ([], Throw "Chunk size must be between 1 and 50")) /\
  (~ below_1_or_above_50 chunkSize ->
   exists t, trace run = Console (LogFetchingChannel slug) :: GetThumb slug :: t).
Proof.
  intros Hs run. unfold run.
  destruct (chunk_size_rejected chunkSize) eqn:Hc.
  - pose proof (rejected_below_1_or_above_50 chunkSize Hc) as Hb.
    rewrite downloadChannel_rejected by assumption.
    split; [tauto | intros Hn; contradiction].
  - destruct (@accepted_run_starts W L slug outputDir chunkSize Hs Hc) as [t Ht].
    assert (Hn : ~ below_1_or_above_50 chunkSize).
    { intros Hb. apply below_1_or_above_50_rejected in Hb. congruence. }
    split; [|intros _; now exists t].
    split; [contradiction|].
    intros Heq. rewrite Heq in Ht. discriminate.
Qed.

Lemma chunk_size_check_is_exact_witness :
  "frog" <> "" /\
  (below_1_or_above_50 (Fin (101 # 2)) <->
   downloadChannel (serve three_blocks) node_lib "frog" "." (Fin (101 # 2))
   = ([], Throw "Chunk size must be between 1 and 50")).
Proof.
  assert (Hs : "frog" <> "") by discriminate.
  split; [exact Hs|].
  destruct (@chunk_size_check_is_exact (serve three_blocks) node_lib "frog" "."
              (Fin (101 # 2)) Hs) as [H _].
  exact H.
Defined.

(** ** A chunk size that is not a number *)

Lemma slice_to_NaN {A : Type} (l : list A) : slice l (num_of_Z 0) NaN = [].
Proof.
  unfold slice, to_integer_or_infinity, clamp_index, num_of_Z, Qtrunc. cbn.
  rewrite Z.min_l by lia. reflexivity.
Qed.

Lemma chunk_loop_NaN (W : World) (L : Lib) (slug dir : string) (l : list Block) :
  l <> [] ->
  chunk_loop W L (length l) slug dir NaN l (num_of_Z 0) 0 0
  = ([Console (LogProgress 0 (length l) 0)], Ret (0, 0)).
Proof.
  intros Hl. destruct l as [|b l]; [congruence|].
  set (bl := b :: l). change (length bl) with (S (length l)) at 1.
  cbn [chunk_loop].
  change (num_of_Z 0) with (num_of_nat 0). rewrite num_ltb_nat.
  change (0 <? length bl) with true. cbv iota.
  rewrite chunk_body_run. cbv zeta.
  change (num_add (num_of_nat 0) NaN) with NaN.
  change (num_of_nat 0) with (num_of_Z 0). rewrite slice_to_NaN.
  rewrite bind_run. cbn [fst snd]. rewrite chunk_loop_exit by reflexivity.
  reflexivity.
Qed.

Lemma page_requests_no_block (slug : string) (ps : list nat) :
  filter is_block_event (flat_map (page_request slug) ps) = [].
Proof.
  induction ps as [|p ps IH]; [reflexivity|].
  cbn [flat_map page_request app filter is_block_event]. exact IH.
Qed.

Lemma chunk_loop_NaN_any (W : World) (L : Lib) (slug dir : string) (l : list Block) :
  exists tl,
    chunk_loop W L (length l) slug dir NaN l (num_of_Z 0) 0 0 = (tl, Ret (0, 0)) /\
    filter is_block_event tl = [].
Proof.
  destruct l as [|b l].
  - exists []. split; reflexivity.
  - exists [Console (LogProgress 0 (length (b :: l)) 0)].
    split; [apply chunk_loop_NaN; discriminate | reflexivity].
Qed.

(** When the chunk size is NaN (what the command line gives for a
    value that is not a number) and the pages are fetched, the run
    starts no download at all and still returns: it prints
    [Downloaded: 0, Failed: 0] whatever the channel holds. *)
Theorem nan_chunk_size_downloads_nothing (W : World) (L : Lib) (slug outputDir : string)
    (allContents : list Block) :
  slug <> "" ->
  channel_contents W slug allContents ->
  let run := downloadChannel W L slug outputDir NaN in
  final run = Ret tt /\
  filter is_block_event (trace run) = [] /\
  last (trace run) (Console LogEmpty) = Console (LogDone 0 0).
Proof.
  intros Hs [t [pages [Ht [Hlen [Hall ->]]]]] run. unfold run.
  apply (pages_run W slug) in Hall. rewrite <- page_promises_eq in Hall.
  destruct (@downloadChannel_cases W L slug outputDir NaN t Hs eq_refl Ht Hlen)
    as [[m [Hm _]]|[pages' [tl [counts [Hpages [Hloop Heq]]]]]].
  { rewrite Hall in Hm. discriminate. }
  rewrite Hall in Hpages, Heq. cbn [trace final fst snd] in Hpages, Heq.
  injection Hpages as <-.
  assert (Htl : filter is_block_event tl = [] /\ counts = (0, 0)).
  { destruct (chunk_loop_NaN_any W L slug (path_resolve L outputDir)
                (flat_map page_contents pages)) as [tl' [Hrun Hnone]].
    rewrite Hrun in Hloop. injection Hloop as <- <-. now split. }
  destruct Htl as [Htl ->]. rewrite Heq. cbn [trace final fst snd].
  split; [reflexivity|]. split.
  - rewrite !filter_app.
    rewrite page_requests_no_block. cbn [filter is_block_event header app].
    rewrite filter_app, Htl. reflexivity.
  - change (Console (LogDownloading (length (flat_map page_contents pages)) NaN)
              :: tl ++ [Console (LogDone 0 0)])
      with ((Console (LogDownloading (length (flat_map page_contents pages)) NaN) :: tl)
              ++ [Console (LogDone 0 0)]).
    rewrite !app_assoc. apply last_last.
Qed.

Lemma nan_chunk_size_downloads_nothing_witness :
  "frog" <> "" /\
  channel_contents (serve three_blocks) "frog" three_blocks /\
  final (downloadChannel (serve three_blocks) node_lib "frog" "." NaN) = Ret tt /\
  filter is_block_event (trace (downloadChannel (serve three_blocks) node_lib "frog" "." NaN))
  = [] /\
  last (trace (downloadChannel (serve three_blocks) node_lib "frog" "." NaN))
       (Console LogEmpty) = Console (LogDone 0 0).
Proof.
  assert (Hs : "frog" <> "") by discriminate.
  split; [exact Hs|]. split; [exact channel_contents_served|].
  exact (@nan_chunk_size_downloads_nothing (serve three_blocks) node_lib "frog" "."
           three_blocks Hs channel_contents_served).
Defined.

(** ** The exit status of the command *)

Lemma thrown_message_is_printed (W : World) (L : Lib) (slug outputDir : string)
    (chunkSize : number) (msg : string) :
  slug <> "" -> chunk_size_rejected chunkSize = false ->
  final (downloadChannel W L slug outputDir chunkSize) = Throw msg ->
  last (trace (downloadChannel W L slug outputDir chunkSize)) (Console LogEmpty)
  = Console (ErrFatal msg).
Proof.
  intros Hs Hc.
  destruct (world_thumb W slug) as [t|m] eqn:Ht.
  2:{ rewrite (@downloadChannel_thumb_fails W L slug outputDir chunkSize m Hs Hc Ht).
      intros [= <-]. reflexivity. }
  destruct (Z.eq_dec (thumb_length t) 0) as [Hz|Hz].
  { rewrite (@downloadChannel_empty W L slug outputDir chunkSize t Hs Hc Ht Hz).
    discriminate. }
  destruct (@downloadChannel_cases W L slug outputDir chunkSize t Hs Hc Ht Hz)
    as [[m [_ Heq]]|[pages [tl [counts [_ [_ Heq]]]]]]; rewrite Heq; [|discriminate].
  intros [= <-]. cbn [trace fst]. rewrite !app_assoc. apply last_last.
Qed.

(** The handler never lets an error out.  It ends the process with
    status 1 exactly when the run has a fatal cause (invalid input,
    summary or page failure) and returns otherwise, whatever happened
    to the downloads.  On invalid input it exits without a single
    line of output; on a network failure the last line printed is the
    fatal error with its message. *)
Theorem cli_exit_status (W : World) (L : Lib) (argv : Argv) :
  let slug := argv_slug argv in
  let chunkSize := argv_chunkSize argv in
  let t := fst (cli_handler W L argv) in
  let status := snd (cli_handler W L argv) in
  (status = HandlerReturned /\ ~ exists msg, fatal_cause W slug chunkSize msg) \/
  (status = ProcessExit 1 /\
   exists msg,
     fatal_cause W slug chunkSize msg /\
     (slug = "" \/ chunk_size_rejected chunkSize = true -> t = []) /\
     (slug <> "" /\ chunk_size_rejected chunkSize = false ->
      last t (Console LogEmpty) = Console (ErrFatal msg))).
Proof.
  cbv zeta. unfold cli_handler.
  destruct (downloadChannel_outcome W L (argv_slug argv) (argv_output argv)
              (argv_chunkSize argv)) as [Hret|[msg [Hthrow Hcause]]].
  - left.
    destruct (downloadChannel W L (argv_slug argv) (argv_output argv) (argv_chunkSize argv))
      as [t r] eqn:E.
    cbn in Hret. subst r. split; [reflexivity|].
    intros [msg Hcause].
    destruct (@fatal_cause_throws W L (argv_slug argv) (argv_output argv)
                (argv_chunkSize argv) msg Hcause) as [msg' Hthrow].
    rewrite E in Hthrow. discriminate.
  - right.
    pose proof (@thrown_message_is_printed W L (argv_slug argv) (argv_output argv)
                  (argv_chunkSize argv) msg) as Hlast.
    assert (Hsilent : argv_slug argv = "" \/ chunk_size_rejected (argv_chunkSize argv) = true ->
                      trace (downloadChannel W L (argv_slug argv) (argv_output argv)
                               (argv_chunkSize argv)) = []).
    { intros [Hs|Hc].
      - now rewrite downloadChannel_invalid_slug.
      - destruct (String.eqb_spec (argv_slug argv) "") as [Hs|Hs].
        + now rewrite downloadChannel_invalid_slug.
        + now rewrite downloadChannel_rejected. }
    destruct (downloadChannel W L (argv_slug argv) (argv_output argv) (argv_chunkSize argv))
      as [t r] eqn:E.
    cbn in Hthrow, Hlast, Hsilent. subst r. split; [reflexivity|].
    exists msg. split; [exact Hcause|]. split; [exact Hsilent|].
    intros [Hs Hc]. now apply Hlast.
Qed.

(** Downloads that fail do not change the exit status: with every
    image request failing the handler returns. *)
Example cli_returns_when_images_fail :
  snd (cli_handler images_down node_lib
         {| argv_slug := "frog"; argv_output := "."; argv_chunkSize := num_of_Z 10 |})
  = HandlerReturned /\
  cli_handler (serve three_blocks) node_lib
    {| argv_slug := "frog"; argv_output := "."; argv_chunkSize := num_of_Z 0 |}
  = ([], ProcessExit 1).
Proof. split; reflexivity. Qed.

(** ** The number of passes of the loop *)

Lemma running_total_length {A : Type} (cs : list (list A)) (n : nat) :
  length (running_total n cs) = length cs.
Proof. revert n. induction cs as [|c cs IH]; intros n; cbn; auto. Qed.

Lemma loop_chunks_count {A : Type} (k : nat) (l : list A) :
  1 <= k ->
  forall fuel n, length l - n <= fuel ->
    length (loop_chunks fuel (num_of_nat k) l (num_of_nat n))
    = (length l - n + k - 1) / k.
Proof.
  intros Hk. induction fuel as [|fuel IH]; intros n Hfuel.
  - rewrite loop_chunks_done by lia.
    replace (length l - n + k - 1) with (k - 1) by lia.
    rewrite Nat.div_small by lia. reflexivity.
  - destruct (Nat.le_gt_cases (length l) n) as [Hn|Hn].
    + rewrite loop_chunks_done by lia.
      replace (length l - n + k - 1) with (k - 1) by lia.
      rewrite Nat.div_small by lia. reflexivity.
    + rewrite loop_chunks_step by assumption. cbn [length].
      rewrite IH by lia.
      replace (length l - n + k - 1) with ((length l - n - 1) + 1 * k) by lia.
      rewrite Nat.div_add by lia.
      destruct (Nat.le_gt_cases (n + k) (length l)) as [H|H].
      * replace (length l - (n + k) + k - 1) with (length l - n - 1) by lia. lia.
      * replace (length l - (n + k) + k - 1) with (k - 1) by lia.
        rewrite !Nat.div_small by lia. reflexivity.
Qed.

(** For an integer chunk size [k] of at least 1 the loop makes
    ceil(n / k) passes over a list of [n] blocks and prints one
    progress line per pass; when [k] is not below [n] everything is
    downloaded in a single pass. *)
Theorem passes_of_the_loop (W : World) (L : Lib) (slug dir : string)
    (k : nat) (allContents : list Block) :
  1 <= k ->
  let n := length allContents in
  let chunks := loop_chunks n (num_of_nat k) allContents (num_of_Z 0) in
  length chunks = (n + k - 1) / k /\
  (allContents <> [] -> n <= k -> chunks = [allContents]) /\
  exists tl counts,
    chunk_loop W L n slug dir (num_of_nat k) allContents (num_of_Z 0) 0 0 = (tl, Ret counts) /\
    length (progress_sums tl) = (n + k - 1) / k.
Proof.
  intros Hk n chunks.
  assert (Hcount : length chunks = (n + k - 1) / k).
  { unfold chunks. change (num_of_Z 0) with (num_of_nat 0).
    rewrite (@loop_chunks_count Block k allContents Hk n 0) by lia.
    now rewrite Nat.sub_0_r. }
  split; [exact Hcount|]. split.
  - intros Hne Hle. unfold chunks, n in *.
    destruct allContents as [|b l]; [congruence|].
    change (num_of_Z 0) with (num_of_nat 0).
    change (length (b :: l)) with (S (length l)) at 1.
    rewrite loop_chunks_step by (cbn; lia).
    rewrite loop_chunks_done by (cbn in *; lia).
    cbn [skipn]. now rewrite firstn_all2 by exact Hle.
  - destruct (@chunk_loop_int W L slug dir k allContents Hk n 0 0 0 ltac:(lia))
      as [tl [Hrun [_ Hprog]]].
    eexists tl, _. split; [exact Hrun|].
    rewrite Hprog, running_total_length. exact Hcount.
Qed.

Lemma passes_of_the_loop_witness :
  1 <= 2 /\
  length (loop_chunks (length three_blocks) (num_of_nat 2) three_blocks (num_of_Z 0))
  = (length three_blocks + 2 - 1) / 2.
Proof.
  assert (Hk : 1 <= 2) by lia.
  split; [exact Hk|].
  destruct (@passes_of_the_loop (serve three_blocks) node_lib "frog" "/home/user" 2
              three_blocks Hk) as [H _].
  exact H.
Defined.

(** ** Counting the calls of a run *)

Lemma filter_implies {A : Type} (p q : A -> bool) (t : list A) :
  (forall e, p e = true -> q e = true) ->
  filter p (filter q t) = filter p t.
Proof.
  intros H. induction t as [|e t IH]; [reflexivity|]. cbn.
  destruct (q e) eqn:Eq; cbn; [now rewrite IH|].
  destruct (p e) eqn:Ep; [|exact IH].
  apply H in Ep. congruence.
Qed.

Lemma step_event_is_block_event (p : event -> bool) :
  p = is_mkdir \/ p = is_get_image \/ p = is_write_file ->
  forall e, p e = true -> is_block_event e = true /\ negb (is_progress e) = true.
Proof.
  intros [->|[->| ->]] e; destruct e as [[]| | | | |]; cbn; auto; discriminate.
Qed.

Lemma downloadBlock_counts (W : World) (L : Lib) (block : Block) (options : Options) :
  let run := downloadBlock W L block options in
  length (filter is_mkdir (trace run)) = (if has_no_image block then 0 else 1) /\
  length (filter is_get_image (trace run)) <= length (filter is_mkdir (trace run)) /\
  length (filter is_write_file (trace run)) <= length (filter is_get_image (trace run)) /\
  (if succeeded run then 1 else 0) <= length (filter is_write_file (trace run)).
Proof.
  unfold has_no_image, succeeded, downloadBlock.
  destruct (image_url block) as [u|]; [|cbn; repeat split; lia].
  destruct (filename_of_run L block) as [rf [Hf _]].
  rewrite Hf. cbn.
  destruct (world_mkdir W _ _) as [[]|m]; cbn; [|repeat split; lia].
  destruct (world_image W _ _) as [data|m]; cbn; [|repeat split; lia].
  destruct rf as [name|m|]; cbn; [|repeat split; lia..].
  destruct (world_writeFile W _ _ _) as [[]|m]; cbn; repeat split; lia.
Qed.

Lemma runs_counts (W : World) (L : Lib) (slug dir : string) (l : list Block) :
  forall n,
    let t := flat_map trace (runs_from W L slug dir n l) in
    length (filter is_mkdir t) = length (filter (fun b => negb (has_no_image b)) l) /\
    length (filter is_get_image t) <= length (filter is_mkdir t) /\
    length (filter is_write_file t) <= length (filter is_get_image t) /\
    count_ok (runs_from W L slug dir n l) <= length (filter is_write_file t).
Proof.
  induction l as [|b l IH]; intros n; [cbn; repeat split; lia|].
  cbv zeta. unfold runs_from in *. cbn [mapi_from flat_map].
  rewrite count_ok_cons, !filter_app, !length_app.
  destruct (IH (S n)) as [IH1 [IH2 [IH3 IH4]]].
  destruct (downloadBlock_counts W L b
              {| opt_slug := slug; opt_outputDir := dir; opt_index := num_of_nat (S n) |})
    as [H1 [H2 [H3 H4]]].
  fold (download_at W L slug dir n b) in H1, H2, H3, H4.
  cbn [filter]. destruct (has_no_image b); cbn [negb length] in *; repeat split; lia.
Qed.

(** The trace of a run with an integer chunk size on a channel whose
    pages are all fetched, with what precedes the loop spelled out. *)
Lemma downloadChannel_integer_trace (W : World) (L : Lib) (slug outputDir : string)
    (k : nat) (allContents : list Block) :
  slug <> "" -> 1 <= k <= 50 -> channel_contents W slug allContents ->
  let runs := runs_from W L slug (path_resolve L outputDir) 0 allContents in
  exists t tl,
    trace (downloadChannel W L slug outputDir (num_of_nat k))
    = (header slug t ++ flat_map (page_request slug) (seq 1 (total_pages t)))
        ++ Console (LogDownloading (length allContents) (num_of_nat k))
        :: tl ++ [Console (LogDone (count_ok runs) (count_ko runs))] /\
    downloads_of tl = flat_map trace runs.
Proof.
  intros Hs Hk [t [pages [Ht [Hlen [Hall ->]]]]] runs.
  pose proof (integer_chunk_size_accepted Hk) as Hc.
  apply (pages_run W slug) in Hall. rewrite <- page_promises_eq in Hall.
  destruct (@downloadChannel_cases W L slug outputDir (num_of_nat k) t Hs Hc Ht Hlen)
    as [[m [Hm _]]|[pages' [tl [counts [Hpages [Hloop Heq]]]]]].
  { rewrite Hall in Hm. discriminate. }
  rewrite Hall in Hpages, Heq. cbn [trace final fst snd] in Hpages, Heq.
  injection Hpages as <-.
  destruct (@chunk_loop_int W L slug (path_resolve L outputDir) k
              (flat_map page_contents pages) ltac:(lia)
              (length (flat_map page_contents pages)) 0 0 0 ltac:(lia))
    as [tl' [Hrun [Hdown _]]].
  change (num_of_nat 0) with (num_of_Z 0) in Hrun.
  rewrite Hrun in Hloop. injection Hloop as <- <-.
  exists t, tl'. split; [|exact Hdown].
  rewrite Heq. cbn [trace fst snd skipn]. now rewrite <- app_assoc.
Qed.

(** In a run with an integer chunk size between 1 and 50 whose pages
    are all fetched: the directory is created once for every block
    that has an image URL, an image is requested at most once for
    each of these, a file is written at most once for each image
    requested, and the [Downloaded] count of the final summary never
    exceeds the number of files written. *)
Theorem calls_of_a_run (W : World) (L : Lib) (slug outputDir : string)
    (k : nat) (allContents : list Block) :
  slug <> "" ->
  1 <= k <= 50 ->
  channel_contents W slug allContents ->
  let t := trace (downloadChannel W L slug outputDir (num_of_nat k)) in
  exists downloaded failed,
    last t (Console LogEmpty) = Console (LogDone downloaded failed) /\
    downloaded <= length (filter is_write_file t) /\
    length (filter is_write_file t) <= length (filter is_get_image t) /\
    length (filter is_get_image t) <= length (filter is_mkdir t) /\
    length (filter is_mkdir t)
    = length (filter (fun b => negb (has_no_image b)) allContents).
Proof.
  intros Hs Hk Hch t.
  destruct (@downloadChannel_integer_trace W L slug outputDir k allContents Hs Hk Hch)
    as [th [tl [Htrace Hdown]]].
  set (runs := runs_from W L slug (path_resolve L outputDir) 0 allContents) in *.
  assert (Hstep : forall p, p = is_mkdir \/ p = is_get_image \/ p = is_write_file ->
                            filter p t = filter p (flat_map trace runs)).
  { intros p Hp. unfold t. rewrite Htrace, <- Hdown.
    pose proof (step_event_is_block_event Hp) as Hev.
    rewrite !filter_app.
    rewrite <- (filter_implies p is_block_event (flat_map (page_request slug) _))
      by (intros e He; now apply Hev).
    rewrite page_requests_no_block.
    unfold downloads_of.
    rewrite (filter_implies p (fun e => negb (is_progress e)) tl)
      by (intros e He; now apply Hev).
    cbn [filter app].
    assert (Hh : filter p (header slug th) = []).
    { destruct Hp as [->|[->| ->]]; reflexivity. }
    assert (Hd : forall c, p (Console c) = false).
    { intros c. destruct Hp as [->|[->| ->]]; reflexivity. }
    rewrite Hh, !Hd, filter_app. cbn [filter]. rewrite Hd.
    cbn [app]. now rewrite app_nil_r. }
  rewrite (Hstep is_mkdir), (Hstep is_get_image), (Hstep is_write_file) by auto.
  destruct (runs_counts W L slug (path_resolve L outputDir) allContents 0)
    as [H1 [H2 [H3 H4]]].
  fold runs in H1, H2, H3, H4.
  exists (count_ok runs), (count_ko runs). split.
  - unfold t. rewrite Htrace.
    change (Console (LogDownloading (length allContents) (num_of_nat k))
              :: tl ++ [Console (LogDone (count_ok runs) (count_ko runs))])
      with ((Console (LogDownloading (length allContents) (num_of_nat k)) :: tl)
              ++ [Console (LogDone (count_ok runs) (count_ko runs))]).
    rewrite !app_assoc. apply last_last.
  - repeat split; assumption.
Qed.

Lemma calls_of_a_run_witness :
  "frog" <> "" /\
  1 <= 2 <= 50 /\
  channel_contents (serve three_blocks) "frog" three_blocks /\
  exists downloaded failed,
    last (trace (downloadChannel (serve three_blocks) node_lib "frog" "." (num_of_nat 2)))
         (Console LogEmpty) = Console (LogDone downloaded failed) /\
    downloaded
    <= length (filter is_write_file
                 (trace (downloadChannel (serve three_blocks) node_lib "frog" "."
                           (num_of_nat 2)))).
Proof.
  assert (Hs : "frog" <> "") by discriminate.
  assert (Hk : 1 <= 2 <= 50) by lia.
  split; [exact Hs|]. split; [exact Hk|]. split; [exact channel_contents_served|].
  destruct (@calls_of_a_run (serve three_blocks) node_lib "frog" "." 2 three_blocks
              Hs Hk channel_contents_served) as [d [f [H1 [H2 _]]]].
  exists d, f. split; [exact H1 | exact H2].
Defined.

(** ** A run in which nothing fails *)

Lemma healthy_download (W : World) (L : Lib) (block : Block) (options : Options) :
  (forall i d, world_mkdir W i d = Ok tt) ->
  (forall i u, exists data, world_image W i u = Ok data) ->
  (forall i p data, world_writeFile W i p data = Ok tt) ->
  (forall t, exists s, slugify L t = Ok s) ->
  succeeded (downloadBlock W L block options) = negb (has_no_image block).
Proof.
  intros Hm Hi Hw Hs. unfold succeeded, has_no_image, downloadBlock.
  destruct (image_url block) as [u|]; [|reflexivity].
  assert (Hf : exists name, filename_of L block = ([], Ret name)).
  { unfold filename_of, title_part.
    destruct (block_title block) as [t|]; [destruct (t =? "")%string|];
      try (eexists; reflexivity).
    destruct (Hs t) as [s ->]. eexists; reflexivity. }
  destruct Hf as [name Hf]. rewrite Hf. cbn.
  rewrite Hm. cbn. destruct (Hi (opt_index options) u) as [data ->]. cbn.
  rewrite Hw. reflexivity.
Qed.

(** When no call fails (directory, image, file name, write) and the
    pages are fetched, a run with an integer chunk size between 1 and
    50 downloads exactly the blocks that have an image URL and counts
    exactly the others as failed. *)
Theorem healthy_run_counts (W : World) (L : Lib) (slug outputDir : string)
    (k : nat) (allContents : list Block) :
  slug <> "" ->
  1 <= k <= 50 ->
  channel_contents W slug allContents ->
  (forall i d, world_mkdir W i d = Ok tt) ->
  (forall i u, exists data, world_image W i u = Ok data) ->
  (forall i p data, world_writeFile W i p data = Ok tt) ->
  (forall t, exists s, slugify L t = Ok s) ->
  last (trace (downloadChannel W L slug outputDir (num_of_nat k))) (Console LogEmpty)
  = Console (LogDone (length (filter (fun b => negb (has_no_image b)) allContents))
                     (length (filter has_no_image allContents))).
Proof.
  intros Hs Hk Hch Hm Hi Hw Hsl.
  destruct (@downloadChannel_integer_trace W L slug outputDir k allContents Hs Hk Hch)
    as [th [tl [Htrace _]]].
  set (dir := path_resolve L outputDir) in *.
  assert (Hcount : forall l n,
            count_ok (runs_from W L slug dir n l)
            = length (filter (fun b => negb (has_no_image b)) l) /\
            count_ko (runs_from W L slug dir n l) = length (filter has_no_image l)).
  { induction l as [|b l IH]; intros n; [split; reflexivity|].
    unfold runs_from in *. cbn [mapi_from filter].
    rewrite count_ok_cons, count_ko_cons.
    destruct (IH (S n)) as [IH1 IH2]. rewrite IH1, IH2.
    unfold download_at. rewrite (@healthy_download W L b _ Hm Hi Hw Hsl).
    destruct (has_no_image b); cbn; split; reflexivity. }
  destruct (Hcount allContents 0) as [Hok Hko].
  rewrite Htrace, Hok, Hko.
  change (Console (LogDownloading (length allContents) (num_of_nat k)) :: tl ++ ?x)
    with ((Console (LogDownloading (length allContents) (num_of_nat k)) :: tl) ++ x).
  rewrite !app_assoc. apply last_last.
Qed.

Lemma healthy_run_counts_witness :
  "frog" <> "" /\
  1 <= 2 <= 50 /\
  channel_contents (serve three_blocks) "frog" three_blocks /\
  (forall i d, world_mkdir (serve three_blocks) i d = Ok tt) /\
  (forall i u, exists data, world_image (serve three_blocks) i u = Ok data) /\
  (forall i p data, world_writeFile (serve three_blocks) i p data = Ok tt) /\
  (forall t, exists s, slugify node_lib t = Ok s) /\
  last (trace (downloadChannel (serve three_blocks) node_lib "frog" "." (num_of_nat 2)))
       (Console LogEmpty) = Console (LogDone 2 1).
Proof.
  assert (Hs : "frog" <> "") by discriminate.
  assert (Hk : 1 <= 2 <= 50) by lia.
  assert (Hm : forall i d, world_mkdir (serve three_blocks) i d = Ok tt)
    by (intros; reflexivity).
  assert (Hi : forall i u, exists data, world_image (serve three_blocks) i u = Ok data)
    by (intros; exists payload; reflexivity).
  assert (Hw : forall i p data, world_writeFile (serve three_blocks) i p data = Ok tt)
    by (intros; reflexivity).
  assert (Hsl : forall t, exists s, slugify node_lib t = Ok s)
    by (intros t; eexists; reflexivity).
  split; [exact Hs|]. split; [exact Hk|]. split; [exact channel_contents_served|].
  split; [exact Hm|]. split; [exact Hi|]. split; [exact Hw|]. split; [exact Hsl|].
  exact (@healthy_run_counts (serve three_blocks) node_lib "frog" "." 2 three_blocks
           Hs Hk channel_contents_served Hm Hi Hw Hsl).
Defined.

(** ** The counters when the chunk size is not a number *)


(** C10, at the failing input: with the chunk size NaN the loop makes
    one pass on an empty chunk; the progress line and the final
    summary both give [downloaded + failed = 0] on a flattened list of
    three blocks, so no block contributes to either counter. *)
Lemma nan_run_counters_miss_the_blocks :
  chunk_size_rejected NaN = false /\
  length three_blocks = 3 /\
  loop_chunks (length three_blocks) NaN three_blocks (num_of_Z 0) = [[]] /\
  progress_sums (trace (downloadChannel (serve three_blocks) node_lib "frog" "." NaN))
  = [0] /\
  last (trace (downloadChannel (serve three_blocks) node_lib "frog" "." NaN))
       (Console LogEmpty) = Console (LogDone 0 0).
Proof. repeat split; reflexivity. Qed.
